(** * Click resolution, district selection and popup text of [MapView.tsx]

    A shallow embedding of the event handlers of
    [src/components/MapView.tsx]: the roadless-area click handler
    ([onClick]), the trail click handler ([onTrailClick]), the map-wide
    click handler ([generalClickHandler]) with its layer-priority loop, the
    popup [close] listener, and the two places that install the paint
    properties of the congressional-district layers (the styling effect and
    [handleZoomChange]).  With them the set-up of the map in
    [utils/mapSources.ts] and [utils/mapLayers.ts] ([addMapSources],
    [addMapLayers]) on the sources and the layer order of a style, and
    the listeners the effects attach and detach.

    JavaScript values are modelled as they are at run time: numbers are
    IEEE-754 binary64 values (Rocq's primitive floats), strings are
    sequences of UTF-16 code units, a property bag is a finite map from
    keys to values, and a method call on a value of the wrong type raises
    [TypeError].

    Outside the model: the cursor handlers [onEnter] and [onLeave],
    [getGeoJSONBounds], the controls, and the [console.log] calls of the
    click handler with the [featureId] that only they use.  The handlers
    are those of a map that is ready ([ready && map]).  Property bags have
    no prototype: the keys read are not names of [Object.prototype].
    [toLocaleString] formats the shortest decimal that reads back as the
    number, the digits [Number::toString] prints.  Showing the popup while
    it is on the map closes it first, which runs the [close] listener. *)

From Stdlib Require Import ZArith QArith Qround Qabs List String Ascii Floats Bool Lia.
From Stdlib Require Import DecimalString.
From stdpp Require Import gmap strings.

Set Warnings "-inexact-float".
Local Open Scope Z_scope.

(** ** The JavaScript run time the handlers rely on *)

Module JS.

(** A string is a sequence of UTF-16 code units; [length] is what
    [String.prototype.length] returns. *)
Abbreviation codeunit := N.
Abbreviation jsstring := (list N).

(** A source literal made of ASCII characters only. *)
Definition lit (s : string) : jsstring :=
  map N_of_ascii (list_ascii_of_string s).

(** U+2014, the text shown when a value cannot be displayed, and U+2013,
    the dash of the representative label. *)
Definition emdash : jsstring := [8212%N].
Definition endash : jsstring := [8211%N].

Inductive jsval : Type :=
| JUndefined
| JNull
| JBool (b : bool)
| JNum (x : float)
| JStr (s : jsstring).

(** ToBoolean. *)
Definition truthy (v : jsval) : bool :=
  match v with
  | JUndefined | JNull => false
  | JBool b => b
  | JNum x => negb (PrimFloat.is_nan x || PrimFloat.is_zero x)
  | JStr s => match s with [] => false | _ :: _ => true end
  end.

(** [a || b]. *)
Definition or_else (a b : jsval) : jsval := if truthy a then a else b.

(** [a && b]. *)
Definition and_then (a b : jsval) : jsval := if truthy a then b else a.

(** Completions: a computation returns normally or throws. *)
Inductive error : Type := TypeError.

Inductive completion (A : Type) : Type :=
| Normal (a : A)
| Throw (e : error).
Arguments Normal {A} a.
Arguments Throw {A} e.

Definition bind {A B : Type} (c : completion A) (k : A -> completion B)
  : completion B :=
  match c with
  | Normal a => k a
  | Throw e => Throw e
  end.

(** [try { body } catch {}] around an assignment to a variable whose value
    before the block is [dflt]. *)
Definition try_or {A : Type} (dflt : A) (body : completion A) : A :=
  match body with
  | Normal a => a
  | Throw _ => dflt
  end.

(** *** Strings *)

Definition codeunit_eqb : codeunit -> codeunit -> bool := N.eqb.

(** [starts p s]: [p] occurs in [s] at position 0. *)
Fixpoint starts (p s : jsstring) : bool :=
  match p, s with
  | [], _ => true
  | _ :: _, [] => false
  | a :: p', b :: s' => codeunit_eqb a b && starts p' s'
  end.

(** [String.prototype.includes]. *)
Fixpoint str_includes (s p : jsstring) : bool :=
  starts p s ||
  match s with
  | [] => false
  | _ :: s' => str_includes s' p
  end.

(** [String.prototype.split] with a separator string and no limit.  The
    scan of ECMA-262 (SplitMatch at q; on a match emit the piece and resume
    after the separator) is written with a counter [skip] of separator code
    units still to step over, and [cur] the piece collected so far, most
    recent code unit first. *)
Fixpoint split_from (sep : jsstring) (skip : nat) (cur s : jsstring)
  : list jsstring :=
  match s with
  | [] => [rev cur]
  | c :: s' =>
      match skip with
      | S k => split_from sep k cur s'
      | O =>
          if starts sep s
          then rev cur :: split_from sep (Nat.pred (List.length sep)) [] s'
          else split_from sep O (c :: cur) s'
      end
  end.

Definition str_split (s sep : jsstring) : list jsstring :=
  match sep with
  | [] => map (fun c => [c]) s
  | _ :: _ => split_from sep O [] s
  end.

(** [String.prototype.padStart(maxLength, fill)]: the fill string repeated
    and truncated to the missing length, then the string. *)
Fixpoint fill_to (n : nat) (fill cur : jsstring) : jsstring :=
  match n with
  | O => []
  | S n' =>
      match cur with
      | c :: cur' => c :: fill_to n' fill cur'
      | [] =>
          match fill with
          | [] => []
          | c :: cur' => c :: fill_to n' fill cur'
          end
      end
  end.

Definition str_padStart (s : jsstring) (maxLength : nat) (fill : jsstring)
  : jsstring :=
  if (maxLength <=? List.length s)%nat then s
  else match fill with
       | [] => s
       | _ :: _ => fill_to (maxLength - List.length s) fill fill ++ s
       end.

(** [Array.prototype.indexOf] on an array of strings: the first position
    holding the key, or [-1]. *)
Fixpoint indexOf_from (i : Z) (l : list string) (x : string) : Z :=
  match l with
  | [] => -1
  | y :: l' => if String.eqb y x then i else indexOf_from (i + 1) l' x
  end.

Definition indexOf (l : list string) (x : string) : Z := indexOf_from 0 l x.

(** *** Numbers

    A number is a binary64 value.  [Prim2SF] gives its exact value: a zero,
    an infinity, NaN, or [(-1)^s * m * 2^e]. *)

Definition isFinite (x : float) : bool := PrimFloat.is_finite x.

Definition decimal (n : Z) : jsstring :=
  lit (NilZero.string_of_uint (N.to_uint (Z.to_N n))).

Definition zeros (n : nat) : jsstring := repeat 48%N n.

Fixpoint drop_zeros (r : jsstring) : jsstring :=
  match r with
  | c :: r' => if codeunit_eqb c 48%N then drop_zeros r' else r
  | [] => []
  end.

Definition strip_trailing_zeros (s : jsstring) : jsstring :=
  rev (drop_zeros (rev s)).

Definition minus_if (s : bool) : jsstring := if s then lit "-" else [].

(** Grouping separators of the en-US locale, on the integer digits taken
    least significant first. *)
Fixpoint group3 (r : jsstring) : jsstring :=
  match r with
  | a :: b :: c :: ((_ :: _) as rest) => a :: b :: c :: 44%N :: group3 rest
  | _ => r
  end.

(** Number::toString of ECMA-262, radix 10.  [shortest m e] finds the
    digits [c] and the exponent [p] with the fewest digits such that
    [c * 10^p] rounds to [m * 2^e], closest to it among those. *)
Definition pow10Q (p : Z) : Q :=
  if 0 <=? p then inject_Z (10 ^ p) else (1 # Z.to_pos (10 ^ (- p)))%Q.

Definition pow2Q (e : Z) : Q :=
  if 0 <=? e then inject_Z (2 ^ e) else (1 # Z.to_pos (2 ^ (- e)))%Q.

Fixpoint log10_below (fuel : nat) (x : Q) (j : Z) : Z :=
  match fuel with
  | O => - j
  | S fuel' =>
      if Qle_bool 1 (x * pow10Q j)%Q then - j else log10_below fuel' x (j + 1)
  end.

(** [floor (log10 x)] for [x > 0]. *)
Definition floor_log10 (x : Q) : Z :=
  if Qle_bool 1 x
  then Z.of_nat (List.length (decimal (Qfloor x))) - 1
  else log10_below 400 x 1.

Definition Qdist (a b : Q) : Q := Qabs (a - b)%Q.

Fixpoint shortest_from (fuel : nat) (k : Z) (m : positive) (x lo hi : Q)
  (L : Z) : Z * Z :=
  let p := L - k + 1 in
  let f := Qfloor (x * pow10Q (- p))%Q in
  let v1 := (inject_Z f * pow10Q p)%Q in
  let v2 := (inject_Z (f + 1) * pow10Q p)%Q in
  let inside v :=
    if Z.even (Z.pos m) then Qle_bool lo v && Qle_bool v hi
    else negb (Qle_bool v lo) && negb (Qle_bool hi v) in
  match fuel with
  | O => (f, p)
  | S fuel' =>
      match inside v1, inside v2 with
      | true, true =>
          if Qle_bool (Qdist x v1) (Qdist x v2)
          then if Qeq_bool (Qdist x v1) (Qdist x v2) && Z.odd f
               then (f + 1, p) else (f, p)
          else (f + 1, p)
      | true, false => (f, p)
      | false, true => (f + 1, p)
      | false, false => shortest_from fuel' (k + 1) m x lo hi L
      end
  end.

Definition shortest (m : positive) (e : Z) : Z * Z :=
  let x := Qred (inject_Z (Z.pos m) * pow2Q e)%Q in
  let up := pow2Q (e - 1) in
  let down :=
    if (Z.pos m =? 2 ^ 52) && (-1074 <? e) then pow2Q (e - 2) else pow2Q (e - 1) in
  shortest_from 17 1 m x (Qred (x - down)%Q) (Qred (x + up)%Q) (floor_log10 x).

(** [c * 10^p] rounded to [k] fraction digits, as a count of [10^-k],
    halves away from zero (the default rounding mode [halfExpand] of
    [Intl.NumberFormat]). *)
Definition decimal_round (c p : Z) (k : nat) : Z :=
  let q := p + Z.of_nat k in
  if 0 <=? q then c * 10 ^ q
  else (2 * c + 10 ^ (- q)) / (2 * 10 ^ (- q)).

(** [Number.prototype.toLocaleString("en-US", { maximumFractionDigits })]:
    decimal style, grouping, no minimum of fraction digits.  The run time
    formats the digits that [Number::toString] prints, the shortest
    decimal that reads back as the number, and rounds those: 12.35 with
    one fraction digit is "12.4", although the binary value lies below
    12.35. *)
Definition num_toLocaleString (maximumFractionDigits : nat) (x : float)
  : jsstring :=
  match Prim2SF x with
  | S754_nan => lit "NaN"
  | S754_infinity s => minus_if s ++ [8734%N]
  | S754_zero s => minus_if s ++ lit "0"
  | S754_finite s m e =>
      let '(c, p) := shortest m e in
      let scale := 10 ^ Z.of_nat maximumFractionDigits in
      let r := decimal_round c p maximumFractionDigits in
      let int := rev (group3 (rev (decimal (r / scale)))) in
      let frac :=
        strip_trailing_zeros
          (str_padStart (decimal (r mod scale)) maximumFractionDigits (lit "0")) in
      minus_if s ++ int ++
      match frac with
      | [] => []
      | _ :: _ => lit "." ++ frac
      end
  end.

Definition num_toString (x : float) : jsstring :=
  match Prim2SF x with
  | S754_nan => lit "NaN"
  | S754_infinity s => minus_if s ++ lit "Infinity"
  | S754_zero _ => lit "0"
  | S754_finite s m e =>
      let '(c, p) := shortest m e in
      let ds := strip_trailing_zeros (decimal c) in
      let k := Z.of_nat (List.length ds) in
      let n := Z.of_nat (List.length (decimal c)) + p in
      minus_if s ++
      if (k <=? n) && (n <=? 21) then ds ++ zeros (Z.to_nat (n - k))
      else if (0 <? n) && (n <=? 21)
      then firstn (Z.to_nat n) ds ++ lit "." ++ skipn (Z.to_nat n) ds
      else if (-6 <? n) && (n <=? 0)
      then lit "0." ++ zeros (Z.to_nat (- n)) ++ ds
      else
        let ex := (if n - 1 <? 0 then lit "e-" else lit "e+")
                    ++ decimal (Z.abs (n - 1)) in
        match ds with
        | [d] => [d] ++ ex
        | d :: rest => [d] ++ lit "." ++ rest ++ ex
        | [] => ex
        end
  end.

(** *** Values *)

(** The values on which the string methods can be called after a
    [|| "fallback"]: a string, or anything falsy. *)
Definition stringOrFalsy (v : jsval) : bool :=
  match v with
  | JStr _ => true
  | _ => negb (truthy v)
  end.

(** ToString, as a template literal applies it to a substituted value. *)
Definition ToString (v : jsval) : jsstring :=
  match v with
  | JUndefined => lit "undefined"
  | JNull => lit "null"
  | JBool true => lit "true"
  | JBool false => lit "false"
  | JNum x => num_toString x
  | JStr s => s
  end.

(** Method calls on a value of type [any].  A string has [includes],
    [split] and [padStart]; on a number or a boolean the property is
    [undefined] and the call throws, as does any property access on
    [null] or [undefined]. *)
Definition includes (v : jsval) (p : jsstring) : completion bool :=
  match v with
  | JStr s => Normal (str_includes s p)
  | _ => Throw TypeError
  end.

Definition split (v : jsval) (sep : jsstring) : completion (list jsstring) :=
  match v with
  | JStr s => Normal (str_split s sep)
  | _ => Throw TypeError
  end.

Definition padStart (v : jsval) (maxLength : nat) (fill : jsstring)
  : completion jsstring :=
  match v with
  | JStr s => Normal (str_padStart s maxLength fill)
  | _ => Throw TypeError
  end.

(** [v.toLocaleString("en-US", { maximumFractionDigits })]: a number is
    formatted, a string returns itself, a boolean its name. *)
Definition toLocaleString (v : jsval) (maximumFractionDigits : nat)
  : completion jsstring :=
  match v with
  | JNum x => Normal (num_toLocaleString maximumFractionDigits x)
  | JStr s => Normal s
  | JBool b => Normal (ToString (JBool b))
  | JUndefined | JNull => Throw TypeError
  end.

(** [a === b]. *)
Definition strict_equals (a b : jsval) : bool :=
  match a, b with
  | JUndefined, JUndefined => true
  | JNull, JNull => true
  | JBool x, JBool y => Bool.eqb x y
  | JNum x, JNum y => PrimFloat.eqb x y
  | JStr x, JStr y => bool_decide (x = y)
  | _, _ => false
  end.

(** A property bag [Record<string, any>]; reading an absent key gives
    [undefined]. *)
Definition prop (props : gmap string jsval) (key : string) : jsval :=
  match props !! key with
  | Some v => v
  | None => JUndefined
  end.

End JS.

(** ** Style expressions of the map engine

    The paint values the component installs are JSON literals or
    expressions built from [case], [==] and [get].  The renderer evaluates
    them on each feature: [get] reads a property ([null] when absent),
    [==] is strictly typed, and [case] takes its first branch when the
    condition is [true]. *)

Module Mapbox.
Import JS.

Inductive expr : Type :=
| Literal (v : jsval)
| Get (key : string)
| Equals (a b : expr)
| Case (cond a b : expr).

Fixpoint eval (props : gmap string jsval) (e : expr) : jsval :=
  match e with
  | Literal v => v
  | Get key =>
      match props !! key with
      | Some v => v
      | None => JNull
      end
  | Equals a b => JBool (strict_equals (eval props a) (eval props b))
  | Case cond a b =>
      match eval props cond with
      | JBool true => eval props a
      | _ => eval props b
      end
  end.

Definition LngLat : Type := float * float.

End Mapbox.

(** ** [MapView.tsx] *)

Module MapView.
Import JS Mapbox.

(** What a popup shows.  [buildPopupHTML] (in [utils/popup]) and the two
    HTML templates of this file wrap the fields below in fixed markup; the
    fields are kept apart here. *)
Inductive PopupContent : Type :=
| AreaPopup (name : jsstring) (uid : option jsstring) (acresTxt : jsstring)
| TrailPopup (trailName trailInfo lengthTxt : jsstring)
| DistrictPopup (districtNumber formattedName totalAcres roadlessAcres : jsstring).

(** The state the handlers read and write: the React state
    [selectedDistrictId], and of the map its zoom, the ids of its layers,
    the paint values set on them, and the popup when it is on the map. *)
Record World : Type := {
  selectedDistrictId : jsval;
  zoom : float;
  layers : gset string;
  paint : gmap (string * string) expr;
  popup : option (LngLat * PopupContent);
}.

(** A handler runs on the world and returns normally or throws; what it
    wrote before throwing stays written. *)
Definition handler (A : Type) : Type := World -> World * completion A.

Definition ret {A : Type} (a : A) : handler A := fun w => (w, Normal a).

Definition seq {A B : Type} (c : handler A) (k : A -> handler B) : handler B :=
  fun w =>
    match c w with
    | (w', Normal a) => k a w'
    | (w', Throw e) => (w', Throw e)
    end.

Definition lift {A : Type} (c : completion A) : handler A := fun w => (w, c).

Declare Scope handler_scope.
Delimit Scope handler_scope with handler.
Notation "'let*' x := c 'in' k" := (seq c (fun x => k))
  (at level 10, x name, c at level 100, k at level 200) : handler_scope.
Notation "c >> k" := (seq c (fun _ => k))
  (at level 62, right associativity) : handler_scope.
Notation "'try*' x := c 'in' k" := (JS.bind c (fun x => k))
  (at level 10, x name, c at level 100, k at level 200) : handler_scope.
Local Open Scope handler_scope.

Definition when (b : bool) (c : handler unit) : handler unit :=
  if b then c else ret tt.

Definition setSelectedDistrictId (v : jsval) : handler unit :=
  fun w =>
    ({| selectedDistrictId := v; zoom := zoom w; layers := layers w;
        paint := paint w; popup := popup w |}, Normal tt).

(** The popup [close] listener (lines 83-85). *)
Definition onPopupClose : handler unit := setSelectedDistrictId JNull.

(** [popup.setLngLat(at).setHTML(content).addTo(m)].  [addTo] on a popup
    that is on the map removes it first; removing it fires [close], which
    runs the listener of lines 83-85.  Then the popup is shown. *)
Definition showPopup (at_ : LngLat) (content : PopupContent) : handler unit :=
  fun w =>
    let w1 :=
      match popup w with
      | Some _ => fst (onPopupClose w)
      | None => w
      end in
    ({| selectedDistrictId := selectedDistrictId w1; zoom := zoom w1;
        layers := layers w1; paint := paint w1;
        popup := Some (at_, content) |}, Normal tt).

Definition getZoom : handler float := fun w => (w, Normal (zoom w)).

Definition getLayer (id : string) : handler bool :=
  fun w => (w, Normal (bool_decide (id ∈ layers w))).

(** [m.setPaintProperty(layer, name, value)]; on a layer the map does not
    have the engine reports an error event and changes nothing. *)
Definition setPaintProperty (layer name : string) (value : expr)
  : handler unit :=
  fun w =>
    if bool_decide (layer ∈ layers w)
    then ({| selectedDistrictId := selectedDistrictId w; zoom := zoom w;
             layers := layers w;
             paint := <[(layer, name) := value]> (paint w);
             popup := popup w |}, Normal tt)
    else (w, Normal tt).

Definition str_eqb (a b : string) : bool := String.eqb a b.

Section Handlers.

(** The geometry of a feature is only ever handed to Turf; [turf.area]
    and [turf.length] return a number or throw.  [turf.area] returns
    square meters; [turf.length], called without options as here, returns
    kilometers.  [NAME_KEYS] and [ID_KEYS] come from [config]. *)
Variable Geometry : Type.
Variable turf_area : Geometry -> completion float.
Variable turf_length : Geometry -> completion float.
Variables NAME_KEYS ID_KEYS : list string.

(** A rendered feature: [layer] is [feature.layer?.id], [properties] is
    [None] when the feature has none. *)
Record Feature : Type := {
  layer : option string;
  source : string;
  properties : option (gmap string jsval);
  geometry : Geometry;
}.

(** [(f.properties || {}) as Record<string, any>]. *)
Definition propsOf (f : Feature) : gmap string jsval :=
  match properties f with
  | Some props => props
  | None => ∅
  end.

(** A click on a layer: [e.features] and [e.lngLat]. *)
Record MapLayerMouseEvent : Type := {
  features : option (list Feature);
  layer_lngLat : LngLat;
}.

(** A click on the map: [e.lngLat], and [under], what
    [m.queryRenderedFeatures(e.point)] returns for it. *)
Record MapMouseEvent : Type := {
  under : list Feature;
  lngLat : LngLat;
}.

(** [e.features && e.features[0]]. *)
Definition firstFeature (e : MapLayerMouseEvent) : option Feature :=
  match features e with
  | Some (f :: _) => Some f
  | _ => None
  end.

(** *** [onClick] on [roadless-fill] (lines 93-123) *)

(** [KEYS.find((k) => props[k] !== undefined)] and the use made of the key
    found: the key counts when it is a non-empty string. *)
Definition findKey (keys : list string) (props : gmap string jsval)
  : option string :=
  List.find (fun k => negb (strict_equals (prop props k) JUndefined)) keys.

Definition keyed (key : option string) : option string :=
  match key with
  | Some EmptyString | None => None
  | Some k => Some k
  end.

(** Lines 102-117: the area in acres. *)
Definition acresTxt (g : Geometry) : jsstring :=
  try_or emdash
    (try* m2 := turf_area g in
     let acres := (m2 / 4046.8564224)%float in
     if isFinite acres
     then Normal (num_toLocaleString 0 acres)
     else Normal emdash).

Definition onClick (e : MapLayerMouseEvent) : handler unit :=
  match firstFeature e with
  | None => ret tt
  | Some f =>
      let props := propsOf f in
      let nameKey := findKey NAME_KEYS props in
      let idKey := findKey ID_KEYS props in
      let name :=
        match keyed nameKey with
        | Some k => ToString (prop props k)
        | None => lit "Unnamed area"
        end in
      let uid :=
        match keyed idKey with
        | Some k => Some (ToString (prop props k))
        | None => None
        end in
      showPopup (layer_lngLat e) (AreaPopup name uid (acresTxt (geometry f)))
  end.

(** *** [onTrailClick] on [pct-line] and [oregon-trails-line]
        (lines 126-193) *)

(** Lines 133-152: [trailName] and [trailInfo]. *)
Definition trailIdentity (sourceId : string) (props : gmap string jsval)
  : completion (jsval * jsval) :=
  let trailName := JStr (lit "Unknown Trail") in
  let trailInfo := JStr [] in
  if str_eqb sourceId "pct" then
    Normal (JStr (lit "Pacific Crest Trail - Oregon"),
            JStr (lit "A long-distance hiking trail spanning the length of Oregon"))
  else if str_eqb sourceId "oregon-trails" then
    let trailName :=
      or_else (prop props "TRAIL_NAME")
        (or_else (prop props "NAME")
           (or_else (prop props "TRAIL") (JStr (lit "Oregon Trail")))) in
    let trailInfo :=
      or_else (prop props "DESCRIPTION") (JStr (lit "A trail in Oregon")) in
    try* isSegment :=
      (if truthy (prop props "TRAIL_NAME")
       then includes (prop props "TRAIL_NAME") (lit "PACIFIC CREST")
       else Normal false) in
    if isSegment
    then Normal (JStr (lit "Pacific Crest Trail - Oregon Section"),
                 JStr (lit "A long-distance hiking trail spanning from Canada to Mexico"))
    else Normal (trailName, trailInfo)
  else Normal (trailName, trailInfo).

(** Lines 155-182: [lengthTxt].  [lengthMeters] is the name the source
    gives to what [turf.length] returns. *)
Definition lengthTxt (sourceId : string) (props : gmap string jsval)
  (g : Geometry) : completion jsstring :=
  if str_eqb sourceId "oregon-trails" && truthy (prop props "GIS_MILES") then
    try* miles := toLocaleString (prop props "GIS_MILES") 1 in
    Normal (miles ++ lit " miles")
  else if str_eqb sourceId "pct" then
    Normal (lit "456.5 miles (of 2,650 miles total)")
  else
    Normal
      (try_or emdash
         (try* lengthMeters := turf_length g in
          let lengthMiles := (lengthMeters * 0.000621371)%float in
          if isFinite lengthMiles
          then Normal (num_toLocaleString 1 lengthMiles ++ lit " miles")
          else Normal emdash)).

Definition onTrailClick (e : MapLayerMouseEvent) : handler unit :=
  match firstFeature e with
  | None => ret tt
  | Some f =>
      let props := propsOf f in
      let sourceId := source f in
      let* identity := lift (trailIdentity sourceId props) in
      let* txt := lift (lengthTxt sourceId props (geometry f)) in
      showPopup (layer_lngLat e)
        (TrailPopup (ToString (fst identity)) (ToString (snd identity)) txt)
  end.

(** *** [generalClickHandler] (lines 215-309) *)

(** Higher index = higher priority. *)
Definition layerPriority : list string :=
  [ "congressional-districts-fill";
    "congressional-districts-line";
    "roadless-fill";
    "oregon-trails-line";
    "pct-line" ]%string.

(** Lines 231-240, one turn of the loop on
    [(highestPriorityFeature, highestPriorityIndex)]. *)
Definition visit (best : option Feature * Z) (feature : Feature)
  : option Feature * Z :=
  match layer feature with
  | Some layerId =>
      if str_eqb layerId "" then best
      else
        let priorityIndex := indexOf layerPriority layerId in
        if snd best <? priorityIndex
        then (Some feature, priorityIndex)
        else best
  | None => best
  end.

(** Lines 228-240: the loop, from [(null, -1)]. *)
Definition highestPriority (features : list Feature) : option Feature * Z :=
  fold_left visit features (None, -1).

Definition highestPriorityFeature (features : list Feature) : option Feature :=
  fst (highestPriority features).

(** The index the loop compares for a feature: the position of its layer
    in [layerPriority], and [-1] for a layer that is not listed.  A feature
    without layer takes no part in the loop and counts as [-1] as well. *)
Definition priorityIndex (f : Feature) : Z :=
  match layer f with
  | Some layerId => indexOf layerPriority layerId
  | None => -1
  end.

Definition listed (f : Feature) : Prop :=
  exists layerId, layer f = Some layerId /\ In layerId layerPriority.

(** What the loop holds after [fs]: nothing and [-1] while no listed layer
    was met; otherwise the first feature of the greatest index. *)
Definition holds (fs : list Feature) (r : option Feature) (i : Z) : Prop :=
  (forall g, In g fs -> priorityIndex g <= i) /\
  ((i = -1 /\ r = None) \/
   (exists before f after,
      fs = before ++ f :: after /\ r = Some f /\ priorityIndex f = i /\
      0 <= i /\ forall g, In g before -> priorityIndex g < i)).

(** Lines 245-246. *)
Definition onDistrictLayer (f : Feature) : bool :=
  match layer f with
  | Some id =>
      str_eqb id "congressional-districts-line"
      || str_eqb id "congressional-districts-fill"
  | None => false
  end.

(** Lines 276-286. *)
Definition formattedRepresentativeName (representativeNameRaw : jsval)
  : completion jsval :=
  if negb (strict_equals representativeNameRaw
             (JStr (lit "Unknown Representative")))
  then
    try* nameParts := split representativeNameRaw (lit ", ") in
    match nameParts with
    | [lastName; firstName] => Normal (JStr (firstName ++ lit " " ++ lastName))
    | _ => Normal representativeNameRaw
    end
  else Normal (JStr (lit "Unknown Representative")).

(** The reordering as the specification words it: a name that splits on
    [", "] into exactly two parts is "Last, First" and becomes
    "First Last"; any other name is kept. *)
Definition reorderName (raw : jsstring) : jsstring :=
  match str_split raw (lit ", ") with
  | [lastName; firstName] => firstName ++ lit " " ++ lastName
  | _ => raw
  end.

(** Lines 289-292. *)
Definition formattedName (formattedRepresentativeName party districtNumber : jsval)
  : completion jsstring :=
  try* padded := padStart districtNumber 2 (lit "0") in
  Normal (lit "Rep. " ++ ToString formattedRepresentativeName ++ lit " ("
            ++ ToString party ++ endash ++ lit "OR-" ++ padded ++ lit ")").

(** [v ? v.toLocaleString("en-US", ...) : "—"]. *)
Definition acresOrDash (v : jsval) (maximumFractionDigits : nat)
  : completion jsstring :=
  if truthy v then toLocaleString v maximumFractionDigits else Normal emdash.

(** Lines 262-302: what the district popup shows.  Without options,
    [toLocaleString("en-US")] keeps at most 3 fraction digits. *)
Definition districtPopup (props : gmap string jsval)
  : completion PopupContent :=
  let representativeNameRaw :=
    or_else (prop props "LISTING_NA") (JStr (lit "Unknown Representative")) in
  let districtNumber := or_else (prop props "DISTRICT") (JStr (lit "Unknown")) in
  let party := or_else (prop props "Party") (JStr (lit "Unknown")) in
  try* totalAcres := acresOrDash (prop props "Acres") 3 in
  try* roadlessAcres := acresOrDash (prop props "SUM_RoadlessAreasAcres") 0 in
  try* representative := formattedRepresentativeName representativeNameRaw in
  try* name := formattedName representative party districtNumber in
  Normal (DistrictPopup (ToString districtNumber) name totalAcres roadlessAcres).

Definition generalClickHandler (e : MapMouseEvent) : handler unit :=
  match highestPriorityFeature (under e) with
  | Some f =>
      if onDistrictLayer f then
        let props := propsOf f in
        let selectedDistrictNumber := or_else (prop props "DISTRICT") JNull in
        setSelectedDistrictId selectedDistrictNumber >>
        let* content := lift (districtPopup props) in
        showPopup (lngLat e) content
      else setSelectedDistrictId JNull
  | None => setSelectedDistrictId JNull
  end.

End Handlers.

(** The length in miles as the specification words it: the geodesic
    length in meters, times 0.000621371.  [kilometers] is the length as
    [turf.length] returns it. *)
Definition computeLengthMiles (kilometers : float) : float :=
  (kilometers * 1000 * 0.000621371)%float.

(** *** Paint of the district layers *)

(** [["case", ["==", ["get", "DISTRICT"], selectedDistrictId], a, b]]. *)
Definition whenSelected (selectedDistrictId : jsval) (a b : float) : expr :=
  Case (Equals (Get "DISTRICT") (Literal selectedDistrictId))
    (Literal (JNum a)) (Literal (JNum b)).

Definition number (x : float) : expr := Literal (JNum x).

Definition fillLayer : string := "congressional-districts-fill".
Definition lineLayer : string := "congressional-districts-line".

Definition getSelectedDistrictId : handler jsval :=
  fun w => (w, Normal (selectedDistrictId w)).

(** The effect on [selectedDistrictId] (lines 338-413). *)
Definition stylingEffect : handler unit :=
  let* currentZoom := getZoom in
  let* selected := getSelectedDistrictId in
  if (currentZoom <=? 8)%float then
    (let* hasFill := getLayer fillLayer in
     when hasFill
       (if truthy selected
        then setPaintProperty fillLayer "fill-opacity"
               (whenSelected selected 0.4 0.1)
        else setPaintProperty fillLayer "fill-opacity" (number 0.1))) >>
    (let* hasLine := getLayer lineLayer in
     when hasLine
       (if truthy selected
        then setPaintProperty lineLayer "line-opacity"
               (whenSelected selected 1.0 0.8) >>
             setPaintProperty lineLayer "line-width"
               (whenSelected selected 2.5 1.5)
        else setPaintProperty lineLayer "line-opacity" (number 0.8) >>
             setPaintProperty lineLayer "line-width" (number 1.5)))
  else
    (let* hasFill := getLayer fillLayer in
     when hasFill (setPaintProperty fillLayer "fill-opacity" (number 0.1))) >>
    (let* hasLine := getLayer lineLayer in
     when hasLine
       (setPaintProperty lineLayer "line-opacity" (number 0.8) >>
        setPaintProperty lineLayer "line-width" (number 1.5))).

(** The [zoom] listener (lines 421-493); [selectedDistrictId] is the value
    of the render that registered it. *)
Definition handleZoomChange : handler unit :=
  let* currentZoom := getZoom in
  let* selected := getSelectedDistrictId in
  if (currentZoom <=? 8)%float then
    if truthy selected then
      (let* hasFill := getLayer fillLayer in
       when hasFill
         (setPaintProperty fillLayer "fill-opacity"
            (whenSelected selected 0.4 0.1))) >>
      (let* hasLine := getLayer lineLayer in
       when hasLine
         (setPaintProperty lineLayer "line-opacity"
            (whenSelected selected 1.0 0.8) >>
          setPaintProperty lineLayer "line-width"
            (whenSelected selected 2.5 1.5)))
    else
      (let* hasFill := getLayer fillLayer in
       when hasFill (setPaintProperty fillLayer "fill-opacity" (number 0.1))) >>
      (let* hasLine := getLayer lineLayer in
       when hasLine
         (setPaintProperty lineLayer "line-opacity" (number 0.8) >>
          setPaintProperty lineLayer "line-width" (number 1.5)))
  else
    (let* hasFill := getLayer fillLayer in
     when hasFill (setPaintProperty fillLayer "fill-opacity" (number 0.1))) >>
    (let* hasLine := getLayer lineLayer in
     when hasLine
       (setPaintProperty lineLayer "line-opacity" (number 0.8) >>
        setPaintProperty lineLayer "line-width" (number 1.5))).

(** The paint values of the district layers that a world holds:
    fill-opacity, line-opacity, line-width. *)
Definition districtPaint (w : World)
  : option expr * option expr * option expr :=
  (paint w !! (fillLayer, "fill-opacity"%string),
   paint w !! (lineLayer, "line-opacity"%string),
   paint w !! (lineLayer, "line-width"%string)).

(** The values both listeners compute from the state and the zoom. *)
Definition derivedPaint (selected : jsval) (currentZoom : float)
  : expr * expr * expr :=
  if (currentZoom <=? 8)%float && truthy selected
  then (whenSelected selected 0.4 0.1,
        whenSelected selected 1.0 0.8,
        whenSelected selected 2.5 1.5)
  else (number 0.1, number 0.8, number 1.5).

(** With both layers on the map, setting the three values gives this
    world. *)
Definition repainted (w : World) (values : expr * expr * expr) : World :=
  {| selectedDistrictId := selectedDistrictId w; zoom := zoom w;
     layers := layers w;
     paint := <[(lineLayer, "line-width"%string) := snd values]>
                (<[(lineLayer, "line-opacity"%string) := snd (fst values)]>
                   (<[(fillLayer, "fill-opacity"%string) := fst (fst values)]>
                      (paint w)));
     popup := popup w |}.

Arguments layer {Geometry} _.
Arguments source {Geometry} _.
Arguments properties {Geometry} _.
Arguments geometry {Geometry} _.
Arguments propsOf {Geometry} _.
Arguments features {Geometry} _.
Arguments layer_lngLat {Geometry} _.
Arguments under {Geometry} _.
Arguments lngLat {Geometry} _.
Arguments firstFeature {Geometry} _.
Arguments acresTxt {Geometry} turf_area g.
Arguments onClick {Geometry} turf_area NAME_KEYS ID_KEYS e _.
Arguments lengthTxt {Geometry} turf_length sourceId props g.
Arguments onTrailClick {Geometry} turf_length e _.
Arguments visit {Geometry} best feature.
Arguments highestPriority {Geometry} features.
Arguments highestPriorityFeature {Geometry} features.
Arguments priorityIndex {Geometry} f.
Arguments listed {Geometry} f.
Arguments holds {Geometry} fs r i.
Arguments onDistrictLayer {Geometry} f.
Arguments generalClickHandler {Geometry} e _.

End MapView.

(** ** Sample features and worlds

    Concrete inputs on which the properties below are instantiated.  The
    geometry plays no part in them: it is [unit], and Turf is a constant
    function. *)

Module Sample.
Import JS Mapbox MapView.

Definition feature (layerId sourceId : string)
  (props : list (string * jsval)) : Feature unit :=
  {| layer := Some layerId; source := sourceId;
     properties := Some (list_to_map props); geometry := tt |}.

(** A district feature with all the properties the popup reads. *)
Definition districtFour : Feature unit :=
  feature "congressional-districts-fill" "congressional-districts"
    [ ("DISTRICT", JStr (lit "4"));
      ("LISTING_NA", JStr (lit "Smith, Jane"));
      ("Party", JStr (lit "D"));
      ("Acres", JNum 1234567.5);
      ("SUM_RoadlessAreasAcres", JNum 98765.4) ]%string.

(** A district boundary whose feature carries no [DISTRICT]. *)
Definition unnumberedDistrict : Feature unit :=
  feature "congressional-districts-line" "congressional-districts"
    [ ("LISTING_NA", JStr (lit "Smith, Jane")); ("Party", JStr (lit "D")) ]%string.

(** A district whose number is a number, not a string. *)
Definition numericDistrict : Feature unit :=
  feature "congressional-districts-fill" "congressional-districts"
    [ ("DISTRICT", JNum 4); ("LISTING_NA", JStr (lit "Smith, Jane")) ]%string.

(** A district whose properties are all present and all falsy. *)
Definition blankDistrict : Feature unit :=
  feature "congressional-districts-fill" "congressional-districts"
    [ ("DISTRICT", JStr []); ("LISTING_NA", JStr []); ("Party", JStr []);
      ("Acres", JNum 0); ("SUM_RoadlessAreasAcres", JNum 0) ]%string.

Definition roadlessArea : Feature unit :=
  feature "roadless-fill" "roadless-src" [ ("NAME", JStr (lit "Mount Hood Additions")) ]%string.

(** The outline layer that [addMapLayers] adds; it is not in the priority
    order. *)
Definition roadlessOutline : Feature unit :=
  feature "roadless-line" "roadless-src" [ ("NAME", JStr (lit "Mount Hood Additions")) ]%string.

(** A layer of the base map. *)
Definition water : Feature unit := feature "water" "composite" [].

Definition pacificCrest : Feature unit := feature "pct-line" "pct" [].

Definition crestSegment : gmap string jsval :=
  list_to_map
    [ ("TRAIL_NAME", JStr (lit "PACIFIC CREST NATIONAL SCENIC TRAIL"));
      ("GIS_MILES", JNum 12.3) ]%string.

Definition lowerCaseCrest : gmap string jsval :=
  list_to_map
    [ ("TRAIL_NAME", JStr (lit "Pacific Crest Trail")) ]%string.

Definition clickOn (fs : list (Feature unit)) : MapMouseEvent unit :=
  {| under := fs; lngLat := ((-121.7)%float, 45.4%float) |}.

Definition layerClickOn (fs : list (Feature unit)) : MapLayerMouseEvent unit :=
  {| features := Some fs; layer_lngLat := ((-121.7)%float, 45.4%float) |}.

(** The map once [addMapLayers] has run, at a zoom and in a state. *)
Definition world (currentZoom : float) (selected : jsval) : World :=
  {| selectedDistrictId := selected; zoom := currentZoom;
     layers := {[ fillLayer; lineLayer ]};
     paint := ∅; popup := None |}.

(** The same map with the popup of a roadless area on it. *)
Definition worldWithPopup (currentZoom : float) (selected : jsval) : World :=
  {| selectedDistrictId := selected; zoom := currentZoom;
     layers := {[ fillLayer; lineLayer ]};
     paint := ∅;
     popup := Some (((-121.7)%float, 45.4%float),
                    AreaPopup (lit "Mount Hood Additions") None (lit "10")) |}.

(** A trail whose [GIS_MILES] is a string, and one whose [GIS_MILES] is
    halfway between two tenths. *)
Definition milesAsText : gmap string jsval :=
  list_to_map [ ("GIS_MILES", JStr (lit "12.349")) ]%string.

Definition milesHalfway : gmap string jsval :=
  list_to_map [ ("GIS_MILES", JNum 12.35) ]%string.

End Sample.

(** ** [utils/mapSources.ts] and [utils/mapLayers.ts]

    The style of the map: its sources by id and its layers in drawing
    order, first drawn first.  [addSource] throws on an id that is taken.
    [addLayer] reports an error event and changes nothing when the id is
    taken, when the source of the layer is not in the style, or when the
    layer to insert before is not in the style; without a layer to insert
    before it appends. *)

Module MapStyle.
Import JS Mapbox.

(** JSON values of layer definitions. *)
#[warnings="-register-all"]
Inductive json : Type :=
| Prim (v : jsval)
| Arr (items : list json).

Definition num (x : float) : json := Prim (JNum x).
Definition str (s : string) : json := Prim (JStr (lit s)).

(** The JSON that [setPaintProperty] is given for a style expression, as
    the arrays of [MapView.tsx] write it. *)
Fixpoint exprJson (e : expr) : json :=
  match e with
  | Literal v => Prim v
  | Get key => Arr [str "get"; str key]
  | Equals a b => Arr [str "=="; exprJson a; exprJson b]
  | Case cond a b => Arr [str "case"; exprJson cond; exprJson a; exprJson b]
  end.

Inductive SourceSpec : Type :=
| VectorSource (url : string)
| GeoJSONSource (data : string) (generateId : bool) (promoteId : option string).

Record LayerSpec : Type := {
  layer_id : string;
  layer_type : string;
  layer_source : string;
  source_layer : option string;
  layer_minzoom : option float;
  layer_maxzoom : option float;
  layer_filter : option json;
  layer_layout : list (string * json);
  layer_paint : list (string * json);
}.

Record Style : Type := {
  style_sources : gmap string SourceSpec;
  style_layers : list LayerSpec;
}.

(** A call of the engine returns or throws an [Error]. *)
Inductive result (A : Type) : Type :=
| Done (a : A)
| Error.
Arguments Done {A} a.
Arguments Error {A}.

Definition andThen {A B : Type} (r : result A) (k : A -> result B) : result B :=
  match r with
  | Done a => k a
  | Error => Error
  end.

Definition getSource (s : Style) (id : string) : option SourceSpec :=
  style_sources s !! id.

Definition addSource (id : string) (spec : SourceSpec) (s : Style)
  : result Style :=
  match getSource s id with
  | Some _ => Error
  | None =>
      Done {| style_sources := <[id := spec]> (style_sources s);
              style_layers := style_layers s |}
  end.

Definition getLayer (s : Style) (id : string) : option LayerSpec :=
  List.find (fun l => String.eqb (layer_id l) id) (style_layers s).

Fixpoint insertBefore (before : string) (l : LayerSpec)
  (order : list LayerSpec) : option (list LayerSpec) :=
  match order with
  | [] => None
  | x :: rest =>
      if String.eqb (layer_id x) before then Some (l :: x :: rest)
      else match insertBefore before l rest with
           | Some rest' => Some (x :: rest')
           | None => None
           end
  end.

Definition withLayers (s : Style) (order : list LayerSpec) : Style :=
  {| style_sources := style_sources s; style_layers := order |}.

Definition addLayer (l : LayerSpec) (before : option string) (s : Style)
  : Style :=
  match getLayer s (layer_id l), getSource s (layer_source l) with
  | None, Some _ =>
      match before with
      | None | Some EmptyString => withLayers s (style_layers s ++ [l])
      | Some b =>
          match insertBefore b l (style_layers s) with
          | Some order => withLayers s order
          | None => s
          end
      end
  | _, _ => s
  end.

(** The constants of [config] that the two functions use. *)
Record Config : Type := {
  ROADLESS_TILESET_ID : string;
  ROADLESS_SOURCE_LAYER : string;
  OVERLAY_COLOR : json;
  FILL_OPACITY : json;
  PCT_COLOR : json;
  OREGON_TRAILS_COLOR : json;
  CONGRESSIONAL_DISTRICTS_COLOR : json;
}.

Section WithConfig.

Variable config : Config.

(** *** [addMapSources] *)

Definition roadlessSource : SourceSpec :=
  VectorSource ("mapbox://" ++ ROADLESS_TILESET_ID config)%string.

Definition pctSource : SourceSpec :=
  GeoJSONSource "/data/pct_or_simplified.geojson" true None.

Definition trailsSource : SourceSpec :=
  GeoJSONSource "/data/Oregon_trails.geojson" false (Some "OBJECTID_1"%string).

Definition districtsSource : SourceSpec :=
  GeoJSONSource "/data/OR_Congressional_Districts.geojson" true None.

(** [if (!map.getSource(id)) map.addSource(id, spec)]. *)
Definition ensureSource (id : string) (spec : SourceSpec) (s : Style)
  : result Style :=
  match getSource s id with
  | None => addSource id spec s
  | Some _ => Done s
  end.

Definition addMapSources (map : Style) : result Style :=
  andThen (ensureSource "roadless-src" roadlessSource map) (fun map =>
  andThen (ensureSource "pct" pctSource map) (fun map =>
  andThen (ensureSource "oregon-trails" trailsSource map) (fun map =>
  ensureSource "congressional-districts" districtsSource map))).

(** *** [addMapLayers] *)

Definition noTranslate (kind : string) : list (string * json) :=
  [ ((kind ++ "-translate")%string, Arr [num 0; num 0]);
    ((kind ++ "-translate-anchor")%string, str "map") ].

Definition roundLine : list (string * json) :=
  [ ("line-cap"%string, str "round"); ("line-join"%string, str "round") ].

Definition geometryIs (kind : string) : json :=
  Arr [str "=="; Arr [str "geometry-type"]; str kind].

Definition roadlessFill : LayerSpec :=
  {| layer_id := "roadless-fill"; layer_type := "fill";
     layer_source := "roadless-src";
     source_layer := Some (ROADLESS_SOURCE_LAYER config);
     layer_minzoom := None; layer_maxzoom := None;
     layer_filter := Some (geometryIs "Polygon");
     layer_layout := [];
     layer_paint :=
       [ ("fill-color"%string, OVERLAY_COLOR config);
         ("fill-opacity"%string, FILL_OPACITY config) ] ++ noTranslate "fill" |}.

Definition oregonTrailsLine : LayerSpec :=
  {| layer_id := "oregon-trails-line"; layer_type := "line";
     layer_source := "oregon-trails";
     source_layer := None;
     layer_minzoom := Some 8%float; layer_maxzoom := None;
     layer_filter := None;
     layer_layout := roundLine;
     layer_paint :=
       [ ("line-color"%string, OREGON_TRAILS_COLOR config);
         ("line-width"%string,
          Arr [str "interpolate"; Arr [str "linear"]; Arr [str "zoom"];
               num 10; num 0.8; num 12; num 1.5; num 14; num 2.5;
               num 16; num 4]);
         ("line-opacity"%string, num 0.9) ] ++ noTranslate "line" |}.

Definition roadlessLine : LayerSpec :=
  {| layer_id := "roadless-line"; layer_type := "line";
     layer_source := "roadless-src";
     source_layer := Some (ROADLESS_SOURCE_LAYER config);
     layer_minzoom := None; layer_maxzoom := None;
     layer_filter :=
       Some (Arr [str "any"; geometryIs "LineString"; geometryIs "Polygon"]);
     layer_layout := [];
     layer_paint :=
       [ ("line-color"%string, OVERLAY_COLOR config);
         ("line-width"%string, num 1.5) ] ++ noTranslate "line" |}.

Definition pctLine : LayerSpec :=
  {| layer_id := "pct-line"; layer_type := "line";
     layer_source := "pct";
     source_layer := None;
     layer_minzoom := None; layer_maxzoom := None;
     layer_filter := None;
     layer_layout := roundLine;
     layer_paint :=
       [ ("line-color"%string, PCT_COLOR config);
         ("line-opacity"%string, num 0.98);
         ("line-width"%string,
          Arr [str "interpolate"; Arr [str "linear"]; Arr [str "zoom"];
               num 3; num 1.4; num 8; num 2.8; num 12; num 4.2;
               num 16; num 6.5; num 20; num 10]);
         ("line-dasharray"%string,
          Arr [str "step"; Arr [str "zoom"];
               Arr [str "literal"; Arr [num 2; num 2]];
               num 10; Arr [str "literal"; Arr [num 3; num 2]];
               num 16; Arr [str "literal"; Arr [num 4; num 2]]]) ]
       ++ noTranslate "line" |}.

Definition districtsLine : LayerSpec :=
  {| layer_id := "congressional-districts-line"; layer_type := "line";
     layer_source := "congressional-districts";
     source_layer := None;
     layer_minzoom := None; layer_maxzoom := None;
     layer_filter := None;
     layer_layout := roundLine;
     layer_paint :=
       [ ("line-color"%string, CONGRESSIONAL_DISTRICTS_COLOR config);
         ("line-opacity"%string, num 0.8);
         ("line-width"%string, num 1.5) ] ++ noTranslate "line" |}.

Definition districtsFill : LayerSpec :=
  {| layer_id := "congressional-districts-fill"; layer_type := "fill";
     layer_source := "congressional-districts";
     source_layer := None;
     layer_minzoom := None; layer_maxzoom := Some 8%float;
     layer_filter := None;
     layer_layout := [];
     layer_paint :=
       [ ("fill-color"%string, CONGRESSIONAL_DISTRICTS_COLOR config);
         ("fill-opacity"%string, num 0.1) ] ++ noTranslate "fill" |}.

(** [map.getStyle().layers?.find((l) => l.type === "symbol")?.id]. *)
Definition firstSymbol (map : Style) : option string :=
  match List.find (fun l => String.eqb (layer_type l) "symbol") (style_layers map) with
  | Some l => Some (layer_id l)
  | None => None
  end.

(** [if (!map.getLayer(id)) map.addLayer(layer, before)]. *)
Definition ensureLayer (l : LayerSpec) (before : option string) (map : Style)
  : Style :=
  match getLayer map (layer_id l) with
  | None => addLayer l before map
  | Some _ => map
  end.

Definition addMapLayers (map : Style) : Style :=
  let before := firstSymbol map in
  let map := ensureLayer roadlessFill before map in
  let map := ensureLayer oregonTrailsLine (Some "roadless-fill"%string) map in
  let map := ensureLayer roadlessLine before map in
  let map := ensureLayer pctLine before map in
  let map := ensureLayer districtsLine None map in
  ensureLayer districtsFill (Some "congressional-districts-line"%string) map.

(** Lines 75-77 of [MapView.tsx]: the sources, then the layers. *)
Definition addSourcesAndLayers (map : Style) : result Style :=
  andThen (addMapSources map) (fun map => Done (addMapLayers map)).

(** The six layers of [addMapLayers], in the order of its calls. *)
Definition addedLayers : list LayerSpec :=
  [ roadlessFill; oregonTrailsLine; roadlessLine; pctLine;
    districtsLine; districtsFill ].

(** The sources [addMapSources] adds where the id is free. *)
Definition defaultSources : gmap string SourceSpec :=
  list_to_map
    [ ("roadless-src"%string, roadlessSource);
      ("pct"%string, pctSource);
      ("oregon-trails"%string, trailsSource);
      ("congressional-districts"%string, districtsSource) ].

End WithConfig.

(** [extends s s' added]: the style [s'] is [s] with layers among [added]
    put in: same sources, every layer of [s] still found under its id, the
    layers of [s] in their order, nothing in [s'] but layers of [s] and
    layers of [added], and ids still unique if they were. *)
Definition extends (s s' : Style) (added : list LayerSpec) : Prop :=
  style_sources s' = style_sources s /\
  (forall id x, getLayer s id = Some x -> getLayer s' id = Some x) /\
  style_layers s `sublist_of` style_layers s' /\
  (forall x, In x (style_layers s') -> In x (style_layers s) \/ In x added) /\
  (NoDup (List.map layer_id (style_layers s)) ->
   NoDup (List.map layer_id (style_layers s'))).

(** A paint value of a layer definition. *)
Fixpoint assoc (name : string) (l : list (string * json)) : option json :=
  match l with
  | [] => None
  | (k, v) :: rest => if String.eqb k name then Some v else assoc name rest
  end.

Definition paintOf (l : LayerSpec) (name : string) : option json :=
  assoc name (layer_paint l).

(** The ids of the layers of a style, as [m.getLayer] of the world sees
    them. *)
Definition layerIds (map : Style) : gset string :=
  list_to_set (List.map layer_id (style_layers map)).

Definition hasLayer (map : Style) (id : string) : Prop :=
  exists l, getLayer map id = Some l.

End MapStyle.

(** ** Listeners of [MapView.tsx]

    The listeners the two effects attach to the map and detach in their
    clean-up.  A registration is the event type, the layer id when the
    listener is attached to a layer, and the function.  [on] with a layer
    id appends a registration; without a layer id it appends one unless
    the function is registered for the event type already.  [off] removes
    the first registration equal to its arguments, if there is one. *)

Module Wiring.

(** The functions of the component that are attached: [onEnter],
    [onLeave], [onClick], [onTrailClick], [generalClickHandler] and
    [handleZoomChange]. *)
Inductive listener : Type :=
| Enter
| Leave
| AreaClick
| TrailClick
| GeneralClick
| ZoomChange.

#[global] Instance listener_eq_dec : EqDecision listener.
Proof. solve_decision. Defined.

Definition registration : Type := string * option string * listener.

Definition on (r : registration) (table : list registration)
  : list registration :=
  match r with
  | (_, Some _, _) => table ++ [r]
  | (_, None, _) => if bool_decide (r ∈ table) then table else table ++ [r]
  end.

Fixpoint off (r : registration) (table : list registration)
  : list registration :=
  match table with
  | [] => []
  | x :: rest => if decide (x = r) then rest else x :: off r rest
  end.

(** Lines 195-212 and 311, in the order of the calls of [m.on]. *)
Definition attached : list registration :=
  [ ("mouseenter", Some "roadless-fill", Enter);
    ("mouseleave", Some "roadless-fill", Leave);
    ("click", Some "roadless-fill", AreaClick);
    ("mouseenter", Some "pct-line", Enter);
    ("mouseleave", Some "pct-line", Leave);
    ("click", Some "pct-line", TrailClick);
    ("mouseenter", Some "oregon-trails-line", Enter);
    ("mouseleave", Some "oregon-trails-line", Leave);
    ("click", Some "oregon-trails-line", TrailClick);
    ("mouseenter", Some "congressional-districts-line", Enter);
    ("mouseleave", Some "congressional-districts-line", Leave);
    ("mouseenter", Some "congressional-districts-fill", Enter);
    ("mouseleave", Some "congressional-districts-fill", Leave);
    ("click", None, GeneralClick) ]%string.

(** Lines 320-333, in the order of the calls of [m.off]. *)
Definition detached : list registration :=
  [ ("mouseenter", Some "roadless-fill", Enter);
    ("mouseleave", Some "roadless-fill", Leave);
    ("click", Some "roadless-fill", AreaClick);
    ("mouseenter", Some "pct-line", Enter);
    ("mouseleave", Some "pct-line", Leave);
    ("click", Some "pct-line", TrailClick);
    ("mouseenter", Some "oregon-trails-line", Enter);
    ("mouseleave", Some "oregon-trails-line", Leave);
    ("click", Some "oregon-trails-line", TrailClick);
    ("mouseenter", Some "congressional-districts-line", Enter);
    ("mouseleave", Some "congressional-districts-line", Leave);
    ("mouseenter", Some "congressional-districts-fill", Enter);
    ("mouseleave", Some "congressional-districts-fill", Leave);
    ("click", None, GeneralClick) ]%string.

(** The effect that adds sources, layers and behaviour, and its
    clean-up. *)
Definition attachAll (table : list registration) : list registration :=
  fold_left (fun t r => on r t) attached table.

Definition detachAll (table : list registration) : list registration :=
  fold_left (fun t r => off r t) detached table.

(** The zoom effect (line 495) and its clean-up (line 498). *)
Definition attachZoom (table : list registration) : list registration :=
  on ("zoom"%string, None, ZoomChange) table.

Definition detachZoom (table : list registration) : list registration :=
  off ("zoom"%string, None, ZoomChange) table.

End Wiring.

(** ** The worlds a session can reach

    The component mounts with [selectedDistrictId] at [null] (lines 37-39).
    From there the world changes by a run of one of the handlers or of the
    popup [close] listener, or by a move of the engine or the user (zooming,
    a change of layers), which leaves [selectedDistrictId] as it is. *)

Module Session.
Import JS Mapbox MapView.

(** The world after three paint values were set on the district layers
    that the map has: the fill opacity if it has the fill layer, the line
    opacity and the line width if it has the line layer. *)
Definition repaintedWhere (w : World) (values : expr * expr * expr) : World :=
  let p1 :=
    if bool_decide (fillLayer ∈ layers w)
    then <[(fillLayer, "fill-opacity"%string) := fst (fst values)]> (paint w)
    else paint w in
  let p2 :=
    if bool_decide (lineLayer ∈ layers w)
    then <[(lineLayer, "line-width"%string) := snd values]>
           (<[(lineLayer, "line-opacity"%string) := snd (fst values)]> p1)
    else p1 in
  {| selectedDistrictId := selectedDistrictId w; zoom := zoom w;
     layers := layers w; paint := p2; popup := popup w |}.

(** The constants the district layers are reset to. *)
Definition baseline : expr * expr * expr :=
  (number 0.1, number 0.8, number 1.5).

Section Reachable.

Variable Geometry : Type.
Variable turf_area : Geometry -> completion float.
Variable turf_length : Geometry -> completion float.
Variables NAME_KEYS ID_KEYS : list string.

Inductive reachable : World -> Prop :=
| at_mount (w : World) :
    selectedDistrictId w = JNull -> reachable w
| by_engine (w w' : World) :
    reachable w -> selectedDistrictId w' = selectedDistrictId w -> reachable w'
| by_generalClickHandler (e : MapMouseEvent Geometry) (w : World) :
    reachable w -> reachable (fst (generalClickHandler e w))
| by_onClick (e : MapLayerMouseEvent Geometry) (w : World) :
    reachable w -> reachable (fst (onClick turf_area NAME_KEYS ID_KEYS e w))
| by_onTrailClick (e : MapLayerMouseEvent Geometry) (w : World) :
    reachable w -> reachable (fst (onTrailClick turf_length e w))
| by_onPopupClose (w : World) :
    reachable w -> reachable (fst (onPopupClose w))
| by_stylingEffect (w : World) :
    reachable w -> reachable (fst (stylingEffect w))
| by_handleZoomChange (w : World) :
    reachable w -> reachable (fst (handleZoomChange w)).

End Reachable.

Arguments reachable {Geometry} turf_area turf_length NAME_KEYS ID_KEYS _.

End Session.

(** ** A sample map

    A style as a base map has it, with two symbol layers on top, and the
    constants of a configuration. *)

Module SampleMap.
Import JS Mapbox MapView MapStyle.

Definition config : Config :=
  {| ROADLESS_TILESET_ID := "example.roadless";
     ROADLESS_SOURCE_LAYER := "roadless";
     OVERLAY_COLOR := str "#d97706";
     FILL_OPACITY := num 0.35;
     PCT_COLOR := str "#7c3aed";
     OREGON_TRAILS_COLOR := str "#15803d";
     CONGRESSIONAL_DISTRICTS_COLOR := str "#1d4ed8" |}.

Definition baseLayer (id kind : string) : LayerSpec :=
  {| layer_id := id; layer_type := kind; layer_source := "composite";
     source_layer := None; layer_minzoom := None; layer_maxzoom := None;
     layer_filter := None; layer_layout := []; layer_paint := [] |}.

Definition land : LayerSpec := baseLayer "land" "background".
Definition waterFill : LayerSpec := baseLayer "water" "fill".
Definition roadLabel : LayerSpec := baseLayer "road-label" "symbol".
Definition poiLabel : LayerSpec := baseLayer "poi-label" "symbol".

(** The base map as it is loaded. *)
Definition streets : Style :=
  {| style_sources := {[ "composite"%string := VectorSource "mapbox://mapbox.mapbox-streets-v8" ]};
     style_layers := [ land; waterFill; roadLabel; poiLabel ] |}.

(** The base map with the four sources. *)
Definition streetsWithSources : Style :=
  {| style_sources := style_sources streets ∪ defaultSources config;
     style_layers := style_layers streets |}.

(** The base map after the set-up. *)
Definition afterSetUp : Style := addMapLayers config streetsWithSources.

(** A world on the map after the set-up. *)
Definition worldOn (map : Style) (currentZoom : float) (selected : jsval) : World :=
  {| selectedDistrictId := selected; zoom := currentZoom;
     layers := layerIds map; paint := ∅; popup := None |}.

(** A trail of the [oregon-trails] source whose name is a number. *)
Definition numberedTrail : Feature unit :=
  Sample.feature "oregon-trails-line" "oregon-trails"
    [ ("TRAIL_NAME"%string, JNum 7) ].

End SampleMap.

(** * Properties *)

Import JS Mapbox MapView.

(** ** The run time *)

Lemma SFltb_not_SFleb (x y : spec_float) :
  SFltb x y = true -> SFleb y x = false.
Proof.
  unfold SFltb, SFleb.
  destruct x as [sx|sx| |sx mx ex], y as [sy|sy| |sy my ey]; simpl;
    try discriminate; try reflexivity;
    try (destruct sx; simpl; try discriminate; reflexivity);
    try (destruct sy; simpl; try discriminate; reflexivity);
    try (destruct sx, sy; simpl; try discriminate; reflexivity).
  pose proof (Pos.compare_cont_antisym mx my Eq) as A. simpl in A.
  destruct sx, sy; simpl; try discriminate; try reflexivity;
    rewrite (Z.compare_antisym ex ey);
    destruct (ex ?= ey); simpl; try discriminate; try reflexivity;
    rewrite <- A;
    destruct (Pos.compare_cont Eq mx my); simpl; try discriminate; reflexivity.
Qed.

(** [a < b] excludes [b <= a], also for NaN and the infinities. *)
Lemma float_ltb_not_leb (a b : float) :
  (a <? b)%float = true -> (b <=? a)%float = false.
Proof.
  rewrite ltb_spec, leb_spec. apply SFltb_not_SFleb.
Qed.

Lemma starts_app (p s : jsstring) : starts p (p ++ s) = true.
Proof.
  induction p as [|a p IH]; simpl; [reflexivity|].
  unfold codeunit_eqb. rewrite N.eqb_refl. exact IH.
Qed.

Lemma str_includes_starts (s p : jsstring) :
  starts p s = true -> str_includes s p = true.
Proof. destruct s; simpl; intros ->; reflexivity. Qed.

Lemma str_includes_app (a p s : jsstring) : str_includes (a ++ p ++ s) p = true.
Proof.
  induction a as [|c a IH]; simpl.
  - apply str_includes_starts, starts_app.
  - rewrite IH. apply orb_true_r.
Qed.

(** A string that does not contain the separator is a single piece. *)
Lemma split_from_none (sep cur s : jsstring) :
  str_includes s sep = false ->
  split_from sep O cur s = [rev cur ++ s].
Proof.
  revert cur. induction s as [|c s IH]; intros cur H; simpl in *.
  - rewrite app_nil_r. reflexivity.
  - apply orb_false_elim in H. destruct H as [H1 H2].
    rewrite H1. rewrite IH by exact H2. simpl.
    rewrite <- app_assoc. reflexivity.
Qed.

(** One [", "] between two pieces that do not contain it gives the two
    pieces. *)
Lemma split_from_comma_space (cur a b : jsstring) :
  str_includes a (lit ", ") = false ->
  str_includes b (lit ", ") = false ->
  split_from (lit ", ") O cur (a ++ lit ", " ++ b) = [rev cur ++ a; b].
Proof.
  change (lit ", ") with [44%N; 32%N].
  revert cur. induction a as [|c a IH]; intros cur Ha Hb.
  - cbn [app split_from starts List.length Nat.pred].
    unfold codeunit_eqb. rewrite !N.eqb_refl. cbn [andb].
    rewrite (split_from_none [44%N; 32%N] [] b Hb).
    rewrite app_nil_r. reflexivity.
  - cbn [str_includes] in Ha. apply orb_false_elim in Ha. destruct Ha as [H1 H2].
    assert (Hs : starts [44%N; 32%N] (c :: a ++ [44%N; 32%N] ++ b) = false).
    { destruct a as [|d a].
      - cbn [starts app]. change (codeunit_eqb 32%N 44%N) with false.
        cbn [andb]. apply andb_false_r.
      - cbn [starts app] in H1 |- *. exact H1. }
    cbn [app split_from]. cbn [app] in Hs, IH. rewrite Hs.
    rewrite (IH (c :: cur) H2 Hb). cbn [rev]. rewrite <- app_assoc. reflexivity.
Qed.

Lemma str_split_comma_space (a b : jsstring) :
  str_includes a (lit ", ") = false ->
  str_includes b (lit ", ") = false ->
  str_split (a ++ lit ", " ++ b) (lit ", ") = [a; b].
Proof.
  intros Ha Hb. exact (split_from_comma_space [] a b Ha Hb).
Qed.

Lemma str_split_none (s : jsstring) :
  str_includes s (lit ", ") = false ->
  str_split s (lit ", ") = [s].
Proof.
  intros H. exact (split_from_none (lit ", ") [] s H).
Qed.

(** [padStart(2, "0")]. *)
Lemma padStart2_short (c : codeunit) :
  str_padStart [c] 2 (lit "0") = lit "0" ++ [c].
Proof. reflexivity. Qed.

Lemma padStart2_long (s : jsstring) :
  (2 <= List.length s)%nat -> str_padStart s 2 (lit "0") = s.
Proof.
  intros H. unfold str_padStart.
  destruct (Nat.leb_spec 2 (List.length s)); [reflexivity|lia].
Qed.

(** ** Formatted numbers *)

Lemma lit_below_256 (s : string) (c : codeunit) :
  In c (lit s) -> (c < 256)%N.
Proof.
  unfold lit. intros H. apply in_map_iff in H.
  destruct H as (a & <- & _). apply N_ascii_bounded.
Qed.

Lemma drop_zeros_In (r : jsstring) (c : codeunit) :
  In c (drop_zeros r) -> In c r.
Proof.
  induction r as [|d r IH]; cbn [drop_zeros]; [tauto|].
  destruct (codeunit_eqb d 48%N); [|tauto].
  intros H. right. exact (IH H).
Qed.

Lemma strip_trailing_zeros_In (s : jsstring) (c : codeunit) :
  In c (strip_trailing_zeros s) -> In c s.
Proof.
  unfold strip_trailing_zeros. intros H.
  apply in_rev in H. apply drop_zeros_In in H. apply in_rev. exact H.
Qed.

Lemma fill_to_In (n : nat) (fill cur : jsstring) (c : codeunit) :
  In c (fill_to n fill cur) -> In c fill \/ In c cur.
Proof.
  revert cur. induction n as [|n IH]; intros cur; cbn [fill_to]; [intros []|].
  destruct cur as [|d cur].
  - destruct fill as [|d fill']; [intros []|].
    intros [<-|H]; [left; left; reflexivity|].
    destruct (IH _ H) as [H'|H']; [left; exact H'|].
    left. right. exact H'.
  - intros [<-|H]; [right; left; reflexivity|].
    destruct (IH _ H) as [H'|H']; [left; exact H'|right; right; exact H'].
Qed.

Lemma str_padStart_In (s fill : jsstring) (n : nat) (c : codeunit) :
  In c (str_padStart s n fill) -> In c fill \/ In c s.
Proof.
  unfold str_padStart. destruct (n <=? List.length s)%nat; [tauto|].
  destruct fill as [|d fill']; [tauto|].
  intros H. apply in_app_or in H. destruct H as [H|H]; [|tauto].
  apply fill_to_In in H. tauto.
Qed.

Lemma group3_In (r : jsstring) (c : codeunit) :
  In c (group3 r) -> c = 44%N \/ In c r.
Proof.
  assert (G : forall n (l : jsstring), (List.length l <= n)%nat ->
                In c (group3 l) -> c = 44%N \/ In c l).
  { induction n as [|n IH]; intros l Hl.
    - destruct l; [cbn; tauto|cbn in Hl; lia].
    - destruct l as [|x [|y [|z [|t l]]]]; try (cbn; tauto).
      cbn [group3]. intros [<-|[<-|[<-|[<-|H]]]]; cbn; try tauto.
      assert (Hlen : (List.length (t :: l) <= n)%nat) by (cbn in Hl |- *; lia).
      destruct (IH (t :: l) Hlen H) as [H'|H']; [left; exact H'|].
      right. right. right. right. exact H'. }
  exact (G (List.length r) r (le_n _)).
Qed.

(** The text of a number never contains U+2014; in particular it is never
    the dash. *)
Lemma num_toLocaleString_no_dash (k : nat) (x : float) :
  ~ In 8212%N (num_toLocaleString k x).
Proof.
  assert (L : forall s, ~ In 8212%N (lit s)).
  { intros s H. apply lit_below_256 in H. lia. }
  assert (M : forall b, ~ In 8212%N (minus_if b)).
  { intros [|]; [apply L|intros []]. }
  unfold num_toLocaleString. destruct (Prim2SF x) as [b|b| |b m e]; intros H.
  - apply in_app_or in H. destruct H as [H|H]; [exact (M _ H)|exact (L _ H)].
  - apply in_app_or in H. destruct H as [H|[H|[]]]; [exact (M _ H)|discriminate].
  - exact (L _ H).
  - destruct (shortest m e) as [c p].
    cbv zeta in H. apply in_app_or in H. destruct H as [H|H]; [exact (M _ H)|].
    apply in_app_or in H. destruct H as [H|H].
    + apply in_rev in H. apply group3_In in H. destruct H as [H|H]; [discriminate|].
      apply in_rev in H. exact (L _ H).
    + destruct (strip_trailing_zeros _) as [|d ds] eqn:E; [destruct H|].
      apply in_app_or in H. destruct H as [H|H]; [exact (L _ H)|].
      rewrite <- E in H. apply strip_trailing_zeros_In in H.
      apply str_padStart_In in H. destruct H as [H|H]; exact (L _ H).
Qed.

Lemma num_toLocaleString_not_dash (k : nat) (x : float) :
  num_toLocaleString k x <> emdash.
Proof.
  intros E. apply (num_toLocaleString_no_dash k x). rewrite E. left. reflexivity.
Qed.

(** ** The layer-priority loop *)

Lemma indexOf_from_In (l : list string) (x : string) (i : Z) :
  In x l -> i <= indexOf_from i l x < i + Z.of_nat (List.length l).
Proof.
  revert i. induction l as [|y l IH]; intros i H; [destruct H|].
  cbn [indexOf_from List.length]. destruct (String.eqb_spec y x) as [->|Hne].
  - lia.
  - destruct H as [H|H]; [congruence|]. specialize (IH (i + 1) H). lia.
Qed.

Lemma indexOf_from_not_In (l : list string) (x : string) (i : Z) :
  ~ In x l -> indexOf_from i l x = -1.
Proof.
  revert i. induction l as [|y l IH]; intros i H; [reflexivity|].
  cbn [indexOf_from]. destruct (String.eqb_spec y x) as [->|Hne].
  - exfalso. apply H. left. reflexivity.
  - apply IH. intros Hin. apply H. right. exact Hin.
Qed.

Lemma indexOf_listed (l : list string) (x : string) :
  0 <= indexOf l x <-> In x l.
Proof.
  unfold indexOf. split.
  - intros H. destruct (in_dec String.string_dec x l) as [Hin|Hout]; [exact Hin|].
    rewrite (indexOf_from_not_In l x 0 Hout) in H. lia.
  - intros H. apply (indexOf_from_In l x 0) in H. lia.
Qed.

Lemma indexOf_lower (l : list string) (x : string) : -1 <= indexOf l x.
Proof.
  destruct (in_dec String.string_dec x l) as [Hin|Hout].
  - apply indexOf_listed in Hin. lia.
  - unfold indexOf. rewrite (indexOf_from_not_In l x 0 Hout). lia.
Qed.

Section Resolver.

Context {Geometry : Type}.
Implicit Types (f g : Feature Geometry) (fs : list (Feature Geometry)).

Lemma priorityIndex_lower f : -1 <= priorityIndex f.
Proof.
  unfold priorityIndex. destruct (layer f); [apply indexOf_lower|lia].
Qed.

Lemma priorityIndex_listed f : 0 <= priorityIndex f <-> listed f.
Proof.
  unfold priorityIndex, listed. split.
  - destruct (layer f) as [id|]; [|lia]. intros H.
    exists id. split; [reflexivity|]. apply indexOf_listed. exact H.
  - intros (id & -> & Hin). apply indexOf_listed. exact Hin.
Qed.

Lemma priorityIndex_unlisted f : ~ listed f <-> priorityIndex f = -1.
Proof.
  rewrite <- priorityIndex_listed. pose proof (priorityIndex_lower f). lia.
Qed.

(** One turn of the loop replaces the pair exactly when the feature's index
    is strictly above the one held. *)
Lemma visit_spec (best : option (Feature Geometry) * Z) f :
  -1 <= snd best ->
  visit best f =
  if snd best <? priorityIndex f then (Some f, priorityIndex f) else best.
Proof.
  intros Hb. unfold visit, priorityIndex.
  destruct (layer f) as [id|].
  - unfold str_eqb. destruct (String.eqb_spec id "") as [->|Hne]; [|reflexivity].
    change (indexOf layerPriority "") with (-1).
    destruct (Z.ltb_spec (snd best) (-1)); [lia|reflexivity].
  - destruct (Z.ltb_spec (snd best) (-1)); [lia|reflexivity].
Qed.

Lemma highestPriority_snoc fs f :
  highestPriority (fs ++ [f]) = visit (highestPriority fs) f.
Proof. unfold highestPriority. rewrite fold_left_app. reflexivity. Qed.

Lemma highestPriority_holds fs :
  holds fs (fst (highestPriority fs)) (snd (highestPriority fs)).
Proof.
  induction fs as [|x fs IH] using rev_ind.
  - split; [intros g []|]. left. split; reflexivity.
  - rewrite highestPriority_snoc.
    destruct (highestPriority fs) as [r i]. cbn [fst snd] in IH.
    destruct IH as [Hmax Hcase].
    assert (Hi : -1 <= i) by (destruct Hcase as [[-> _]|(_ & _ & _ & _ & _ & _ & ? & _)]; lia).
    rewrite (visit_spec (r, i) x Hi). cbn [snd].
    destruct (Z.ltb_spec i (priorityIndex x)) as [Hlt|Hge]; cbn [fst snd].
    + split.
      * intros g Hg. apply in_app_or in Hg. destruct Hg as [Hg|[<-|[]]]; [|lia].
        specialize (Hmax g Hg). lia.
      * right. exists fs, x, []. repeat split; try lia.
        intros g Hg. specialize (Hmax g Hg). lia.
    + split.
      * intros g Hg. apply in_app_or in Hg. destruct Hg as [Hg|[<-|[]]]; [|lia].
        exact (Hmax g Hg).
      * destruct Hcase as [[-> ->]|(before & f & after & -> & -> & Hf & H0 & Hb)].
        -- left. split; reflexivity.
        -- right. exists before, f, (after ++ [x]).
           rewrite <- app_assoc. repeat split; assumption.
Qed.

Lemma highestPriorityFeature_listed fs f :
  highestPriorityFeature fs = Some f -> In f fs /\ listed f.
Proof.
  unfold highestPriorityFeature. intros H.
  destruct (highestPriority_holds fs) as [_ [[_ Hn]|(before & f' & after & Hfs & Hr & Hf & H0 & _)]].
  - congruence.
  - assert (f' = f) by congruence. subst f'. split.
    + rewrite Hfs. apply in_or_app. right. left. reflexivity.
    + apply priorityIndex_listed. lia.
Qed.

Lemma highestPriorityFeature_none fs :
  (forall g, In g fs -> ~ listed g) -> highestPriorityFeature fs = None.
Proof.
  intros H. destruct (highestPriorityFeature fs) as [f|] eqn:E; [|reflexivity].
  apply highestPriorityFeature_listed in E. destruct E as [Hin Hl].
  exfalso. exact (H f Hin Hl).
Qed.

Lemma highestPriorityFeature_first_max fs :
  (exists g, In g fs /\ listed g) ->
  exists before f after,
    fs = before ++ f :: after /\
    highestPriorityFeature fs = Some f /\
    (forall g, In g before -> priorityIndex g < priorityIndex f) /\
    (forall g, In g after -> priorityIndex g <= priorityIndex f).
Proof.
  intros (g & Hg & Hl). unfold highestPriorityFeature.
  destruct (highestPriority_holds fs) as [Hmax [[Hi _]|(before & f & after & Hfs & Hr & Hf & H0 & Hb)]].
  - apply priorityIndex_listed in Hl. specialize (Hmax g Hg). lia.
  - exists before, f, after. repeat split; try assumption.
    + rewrite Hf. exact Hb.
    + intros h Hh. rewrite Hf. apply Hmax. rewrite Hfs.
      apply in_or_app. right. right. exact Hh.
Qed.

End Resolver.

(** ** The district popup *)

Lemma or_else_truthy (v d : jsval) : truthy v = true -> or_else v d = v.
Proof. unfold or_else. intros ->. reflexivity. Qed.

Lemma or_else_falsy (v d : jsval) : truthy v = false -> or_else v d = d.
Proof. unfold or_else. intros ->. reflexivity. Qed.

Lemma or_else_string (v : jsval) (d : jsstring) :
  stringOrFalsy v = true -> exists s, or_else v (JStr d) = JStr s.
Proof.
  unfold or_else. intros H. destruct (truthy v) eqn:T; [|eauto].
  destruct v; cbn in H, T; try discriminate; try (rewrite T in H; discriminate).
  eauto.
Qed.

Lemma or_else_nonempty (v : jsval) (d s : jsstring) :
  d <> [] -> or_else v (JStr d) = JStr s -> s <> [].
Proof.
  unfold or_else. intros Hd. destruct (truthy v) eqn:T.
  - intros ->. cbn in T. destruct s; [discriminate|congruence].
  - congruence.
Qed.

Lemma acresOrDash_falsy (v : jsval) (k : nat) :
  truthy v = false -> acresOrDash v k = Normal emdash.
Proof. unfold acresOrDash. intros ->. reflexivity. Qed.

Lemma acresOrDash_normal (v : jsval) (k : nat) :
  exists txt, acresOrDash v k = Normal txt.
Proof.
  unfold acresOrDash. destruct (truthy v) eqn:T; [|eauto].
  destruct v; cbn in T; try discriminate; cbn; eauto.
Qed.

Lemma formattedRepresentativeName_string (raw : jsstring) :
  formattedRepresentativeName (JStr raw) = Normal (JStr (reorderName raw)).
Proof.
  unfold formattedRepresentativeName, reorderName. cbn [strict_equals negb split JS.bind].
  case_bool_decide as E.
  - subst raw. reflexivity.
  - cbn [negb]. destruct (str_split raw (lit ", ")) as [|a [|b [|c l]]]; reflexivity.
Qed.

(** With string-valued (or falsy) name and district number the popup is
    built, and these are its fields. *)
Lemma districtPopup_strings (props : gmap string jsval) (raw district : jsstring) :
  or_else (prop props "LISTING_NA") (JStr (lit "Unknown Representative")) = JStr raw ->
  or_else (prop props "DISTRICT") (JStr (lit "Unknown")) = JStr district ->
  exists totalAcres roadlessAcres,
    acresOrDash (prop props "Acres") 3 = Normal totalAcres /\
    acresOrDash (prop props "SUM_RoadlessAreasAcres") 0 = Normal roadlessAcres /\
    districtPopup props =
    Normal (DistrictPopup district
              (lit "Rep. " ++ reorderName raw ++ lit " ("
                 ++ ToString (or_else (prop props "Party") (JStr (lit "Unknown")))
                 ++ endash ++ lit "OR-" ++ str_padStart district 2 (lit "0")
                 ++ lit ")")
              totalAcres roadlessAcres).
Proof.
  intros Hraw Hd. unfold districtPopup. rewrite Hraw, Hd.
  destruct (acresOrDash_normal (prop props "Acres") 3) as [t Ht].
  destruct (acresOrDash_normal (prop props "SUM_RoadlessAreasAcres") 0) as [r Hr].
  exists t, r. rewrite Ht, Hr. cbn [JS.bind].
  rewrite formattedRepresentativeName_string. cbn [JS.bind].
  unfold formattedName. cbn [padStart JS.bind ToString]. auto.
Qed.

Lemma districtPopup_normal (props : gmap string jsval) :
  stringOrFalsy (prop props "DISTRICT") = true ->
  stringOrFalsy (prop props "LISTING_NA") = true ->
  exists content, districtPopup props = Normal content.
Proof.
  intros Hd Hn.
  destruct (or_else_string _ (lit "Unknown") Hd) as [d Ed].
  destruct (or_else_string _ (lit "Unknown Representative") Hn) as [n En].
  destruct (districtPopup_strings props n d En Ed) as (t & r & _ & _ & E).
  eauto.
Qed.

(** ** The click handler *)

Section Click.

Context {Geometry : Type}.
Implicit Types (f : Feature Geometry) (e : MapMouseEvent Geometry) (w : World).

Lemma onDistrictLayer_spec f :
  onDistrictLayer f = true <->
  layer f = Some lineLayer \/ layer f = Some fillLayer.
Proof.
  unfold onDistrictLayer, str_eqb, lineLayer, fillLayer.
  destruct (layer f) as [id|].
  - rewrite orb_true_iff, !String.eqb_eq. split; intros [H|H]; subst; auto;
      injection H as ->; auto.
  - split; [discriminate|]. intros [H|H]; discriminate.
Qed.

Lemma generalClickHandler_district e w f :
  highestPriorityFeature (under e) = Some f ->
  onDistrictLayer f = true ->
  generalClickHandler e w =
  (let* _ := setSelectedDistrictId (or_else (prop (propsOf f) "DISTRICT") JNull) in
   let* content := lift (districtPopup (propsOf f)) in
   showPopup (lngLat e) content)%handler w.
Proof. unfold generalClickHandler. intros -> ->. reflexivity. Qed.

Lemma generalClickHandler_elsewhere e w :
  (highestPriorityFeature (under e) = None \/
   exists f, highestPriorityFeature (under e) = Some f /\ onDistrictLayer f = false) ->
  generalClickHandler e w = setSelectedDistrictId JNull w.
Proof.
  unfold generalClickHandler. intros [->|(f & -> & ->)]; reflexivity.
Qed.

Lemma generalClickHandler_frame e w :
  let w' := fst (generalClickHandler e w) in
  zoom w' = zoom w /\ layers w' = layers w /\ paint w' = paint w.
Proof.
  unfold generalClickHandler.
  destruct (highestPriorityFeature (under e)) as [f|]; [|cbn; auto].
  destruct (onDistrictLayer f); [|cbn; auto].
  unfold seq, setSelectedDistrictId, lift, showPopup.
  destruct (districtPopup (propsOf f)); cbn; [|auto].
  destruct (popup w); cbn; auto.
Qed.

End Click.

(** ** Paint of the district layers *)

Lemma strict_equals_string (v : jsval) (d : jsstring) :
  strict_equals v (JStr d) = true <-> v = JStr d.
Proof.
  destruct v; cbn; try (split; [discriminate|congruence]).
  rewrite bool_decide_eq_true. split; congruence.
Qed.

(** The installed [case] expression on one feature. *)
Lemma whenSelected_eval (props : gmap string jsval) (selected : jsval) (a b : float) :
  eval props (whenSelected selected a b) =
  JNum (if strict_equals (eval props (Get "DISTRICT")) selected then a else b).
Proof.
  unfold whenSelected. cbn [eval].
  destruct (strict_equals _ selected); reflexivity.
Qed.

Lemma stylingEffect_repaints (w : World) :
  fillLayer ∈ layers w -> lineLayer ∈ layers w ->
  stylingEffect w =
  (repainted w (derivedPaint (selectedDistrictId w) (zoom w)), Normal tt).
Proof.
  intros Hf Hl. unfold stylingEffect, derivedPaint, seq, getZoom,
    getSelectedDistrictId, getLayer, when, setPaintProperty, repainted.
  destruct (zoom w <=? 8)%float; cbn [andb];
    [destruct (truthy (selectedDistrictId w))|];
    cbn; rewrite ?(bool_decide_eq_true_2 _ Hf); cbn;
    rewrite ?(bool_decide_eq_true_2 _ Hl); cbn;
    rewrite ?(bool_decide_eq_true_2 _ Hl); reflexivity.
Qed.

Lemma handleZoomChange_repaints (w : World) :
  fillLayer ∈ layers w -> lineLayer ∈ layers w ->
  handleZoomChange w =
  (repainted w (derivedPaint (selectedDistrictId w) (zoom w)), Normal tt).
Proof.
  intros Hf Hl. unfold handleZoomChange, derivedPaint, seq, getZoom,
    getSelectedDistrictId, getLayer, when, setPaintProperty, repainted.
  destruct (zoom w <=? 8)%float; cbn [andb];
    [destruct (truthy (selectedDistrictId w))|];
    cbn; rewrite ?(bool_decide_eq_true_2 _ Hf); cbn;
    rewrite ?(bool_decide_eq_true_2 _ Hl); cbn;
    rewrite ?(bool_decide_eq_true_2 _ Hl); reflexivity.
Qed.

Lemma districtPaint_repainted (w : World) (values : expr * expr * expr) :
  districtPaint (repainted w values) =
  (Some (fst (fst values)), Some (snd (fst values)), Some (snd values)).
Proof.
  unfold districtPaint, repainted; cbn [paint].
  rewrite lookup_insert_ne by (unfold fillLayer, lineLayer; congruence).
  rewrite lookup_insert_ne by (unfold fillLayer, lineLayer; congruence).
  rewrite lookup_insert_eq.
  rewrite lookup_insert_ne by congruence.
  rewrite lookup_insert_eq.
  rewrite lookup_insert_eq. reflexivity.
Qed.

(** Installing the same values again changes nothing: the derivation keeps
    no state of its own. *)
Lemma repainted_twice (w : World) (values : expr * expr * expr) :
  repainted (repainted w values) values = repainted w values.
Proof.
  unfold repainted. cbn. f_equal.
  apply map_eq. intros k.
  rewrite !lookup_insert. repeat case_decide; congruence.
Qed.

Lemma stylingEffect_idempotent (w : World) :
  fillLayer ∈ layers w -> lineLayer ∈ layers w ->
  stylingEffect (fst (stylingEffect w)) = stylingEffect w.
Proof.
  intros Hf Hl. rewrite (stylingEffect_repaints w Hf Hl). cbn [fst].
  rewrite stylingEffect_repaints by assumption. cbn [selectedDistrictId zoom repainted].
  rewrite repainted_twice. reflexivity.
Qed.


(** ** The trail handler *)

Section Trail.

Context {Geometry : Type}.
Variable turf_length : Geometry -> completion float.

(** What the trail popup shows is the identity and the length text. *)
Lemma onTrailClick_shows (e : MapLayerMouseEvent Geometry) (w : World)
  (f : Feature Geometry) (rest : list (Feature Geometry))
  (trailName trailInfo : jsval) (txt : jsstring) :
  features e = Some (f :: rest) ->
  trailIdentity (source f) (propsOf f) = Normal (trailName, trailInfo) ->
  lengthTxt turf_length (source f) (propsOf f) (geometry f) = Normal txt ->
  onTrailClick turf_length e w =
  showPopup (layer_lngLat e)
    (TrailPopup (ToString trailName) (ToString trailInfo) txt) w.
Proof.
  intros He Hi Hl. unfold onTrailClick, firstFeature. rewrite He.
  unfold seq, lift. rewrite Hi, Hl. reflexivity.
Qed.

End Trail.

(** A truthy [TRAIL_NAME] that is not a string has no [includes]. *)
Lemma trailIdentity_throws (props : gmap string jsval) :
  truthy (prop props "TRAIL_NAME") = true ->
  stringOrFalsy (prop props "TRAIL_NAME") = false ->
  trailIdentity "oregon-trails" props = Throw TypeError.
Proof.
  intros T S. unfold trailIdentity. cbn [str_eqb String.eqb Ascii.eqb Bool.eqb].
  rewrite T. destruct (prop props "TRAIL_NAME"); cbn in S, T |- *;
    try discriminate; reflexivity.
Qed.

(** ** The behaviour the specification states *)

Section Behaviour.

Context {Geometry : Type}.
Variable turf_area : Geometry -> completion float.
Variable turf_length : Geometry -> completion float.
Variables NAME_KEYS ID_KEYS : list string.

(** C1, as the handler has it.  The map-wide click handler resolves the
    top-priority feature under the click point.  When that feature is on a
    district layer (fill or line), the state is set to the feature's
    [DISTRICT] property if that value is truthy (Selected) and to [null]
    (Unselected) if it is absent or falsy; and when [DISTRICT] and
    [LISTING_NA] are strings or falsy, the district popup is opened at the
    click position and the handler returns normally.  The state stays
    Selected when no popup is on the map as the handler runs; when a popup
    is on the map, opening the district popup closes it first, and the
    [close] listener leaves the state [null].  When no feature is
    resolved, or the top feature is on another layer, the state is set to
    [null], the popup is left as it is and the handler returns normally.
    Zoom, layers and paint are never touched. *)
Theorem general_click_transition (e : MapMouseEvent Geometry) (w : World) :
  let w' := fst (generalClickHandler e w) in
  (forall f,
     highestPriorityFeature (under e) = Some f ->
     layer f = Some fillLayer \/ layer f = Some lineLayer ->
     let district := prop (propsOf f) "DISTRICT" in
     (popup w = None -> truthy district = true ->
      selectedDistrictId w' = district) /\
     (truthy district = false -> selectedDistrictId w' = JNull) /\
     (stringOrFalsy district = true ->
      stringOrFalsy (prop (propsOf f) "LISTING_NA") = true ->
      exists content,
        districtPopup (propsOf f) = Normal content /\
        popup w' = Some (lngLat e, content) /\
        snd (generalClickHandler e w) = Normal tt /\
        (popup w <> None -> selectedDistrictId w' = JNull))) /\
  ((highestPriorityFeature (under e) = None \/
    exists f, highestPriorityFeature (under e) = Some f /\
              layer f <> Some fillLayer /\ layer f <> Some lineLayer) ->
   selectedDistrictId w' = JNull /\ popup w' = popup w /\
   snd (generalClickHandler e w) = Normal tt) /\
  zoom w' = zoom w /\ layers w' = layers w /\ paint w' = paint w.
Proof.
  intros w'. split; [|split; [|apply generalClickHandler_frame]].
  - intros f Hf Hl district.
    assert (Hd : onDistrictLayer f = true) by (apply onDistrictLayer_spec; tauto).
    subst w'. rewrite (generalClickHandler_district e w f Hf Hd).
    fold district. unfold seq, setSelectedDistrictId, lift, showPopup.
    cbn [popup fst snd].
    split; [|split].
    + intros Hp T. rewrite Hp, (or_else_truthy _ _ T).
      destruct (districtPopup (propsOf f)); reflexivity.
    + intros T. rewrite (or_else_falsy _ _ T).
      destruct (districtPopup (propsOf f)); [|reflexivity].
      destruct (popup w); reflexivity.
    + intros Sd Sn. destruct (districtPopup_normal (propsOf f) Sd Sn) as [content E].
      exists content. rewrite E. cbn [fst snd popup].
      split; [reflexivity|]. split; [reflexivity|]. split; [reflexivity|].
      intros Hp. destruct (popup w); [reflexivity|congruence].
  - intros H. subst w'. rewrite (generalClickHandler_elsewhere e w).
    + repeat split.
    + destruct H as [H|(f & Hf & Hn1 & Hn2)]; [left; exact H|].
      right. exists f. split; [exact Hf|].
      destruct (onDistrictLayer f) eqn:E; [|reflexivity].
      apply onDistrictLayer_spec in E. tauto.
Qed.

(** C2.  What the styling effect and the zoom listener install on the two
    district layers is a function of the selection state and the zoom
    alone, and the same function for both.  Above zoom 8 the values are
    the constants 0.1, 0.8 and 1.5 whatever the state; at zoom 8 or below
    with nothing selected they are the same constants; at zoom 8 or below
    with district [d] selected they are expressions that evaluate to 0.4,
    1.0 and 2.5 on a feature whose [DISTRICT] is [d] and to 0.1, 0.8 and
    1.5 on any other feature. *)
Theorem district_paint_derivation (update : handler unit) (w : World) :
  update = stylingEffect \/ update = handleZoomChange ->
  fillLayer ∈ layers w -> lineLayer ∈ layers w ->
  let selected := selectedDistrictId w in
  let z := zoom w in
  let w' := fst (update w) in
  snd (update w) = Normal tt /\
  selectedDistrictId w' = selected /\ zoom w' = z /\
  exists fillOpacity lineOpacity lineWidth,
    districtPaint w' = (Some fillOpacity, Some lineOpacity, Some lineWidth) /\
    (fillOpacity, lineOpacity, lineWidth) = derivedPaint selected z /\
    ((8 <? z)%float = true ->
     fillOpacity = number 0.1 /\ lineOpacity = number 0.8 /\
     lineWidth = number 1.5) /\
    ((z <=? 8)%float = true -> selected = JNull ->
     fillOpacity = number 0.1 /\ lineOpacity = number 0.8 /\
     lineWidth = number 1.5) /\
    (forall d : jsstring,
       (z <=? 8)%float = true -> selected = JStr d -> d <> [] ->
       forall props : gmap string jsval,
         (props !! "DISTRICT"%string = Some (JStr d) ->
          eval props fillOpacity = JNum 0.4 /\
          eval props lineOpacity = JNum 1.0 /\
          eval props lineWidth = JNum 2.5) /\
         (props !! "DISTRICT"%string <> Some (JStr d) ->
          eval props fillOpacity = JNum 0.1 /\
          eval props lineOpacity = JNum 0.8 /\
          eval props lineWidth = JNum 1.5)).
Proof.
  intros Hu Hf Hl selected z w'.
  assert (E : update w = (repainted w (derivedPaint selected z), Normal tt)).
  { destruct Hu as [->| ->];
      [apply stylingEffect_repaints|apply handleZoomChange_repaints]; assumption. }
  subst w'. rewrite E. cbn [fst snd]. repeat split.
  destruct (derivedPaint selected z) as [[fo lo] lw] eqn:D.
  exists fo, lo, lw. rewrite districtPaint_repainted. cbn [fst snd].
  split; [reflexivity|]. split; [reflexivity|].
  unfold derivedPaint in D. split; [|split].
  - intros Hz. apply float_ltb_not_leb in Hz. fold z in Hz. rewrite Hz in D.
    injection D as <- <- <-. auto.
  - intros Hz Hs. rewrite Hz, Hs in D. injection D as <- <- <-. auto.
  - intros d Hz Hs Hd props. rewrite Hz, Hs in D.
    destruct d as [|c d]; [congruence|]. cbn [truthy andb] in D.
    injection D as <- <- <-. rewrite !whenSelected_eval. cbn [eval].
    split; intros Hp.
    + rewrite Hp. cbn [strict_equals].
      rewrite bool_decide_eq_true_2 by reflexivity. auto.
    + replace (strict_equals _ _) with false; [auto|].
      symmetry. apply not_true_is_false. rewrite strict_equals_string.
      destruct (props !! "DISTRICT"%string); congruence.
Qed.

(** C3, as the loop has it.  For every list of features under the click
    point that holds at least one feature of a layer of the priority order
    [congressional-districts-fill, congressional-districts-line,
    roadless-fill, oregon-trails-line, pct-line], the resolver returns the
    feature whose layer has the greatest index in that order, and among
    several of that index the first of the list: every feature before it
    has a strictly smaller index, every feature after it an index at most
    equal.  Of a [roadless-fill] feature (index 2) and a [pct-line] feature
    (index 4) the [pct-line] feature is returned, in either order. *)
Theorem resolver_first_of_greatest_index (fs : list (Feature Geometry)) :
  (exists g, In g fs /\ listed g) ->
  (exists before f after,
     fs = before ++ f :: after /\
     highestPriorityFeature fs = Some f /\
     (forall g, In g before -> priorityIndex g < priorityIndex f) /\
     (forall g, In g after -> priorityIndex g <= priorityIndex f)) /\
  (forall a b,
     layer a = Some "roadless-fill"%string -> layer b = Some "pct-line"%string ->
     (fs = [a; b] \/ fs = [b; a]) ->
     priorityIndex a = 2 /\ priorityIndex b = 4 /\
     highestPriorityFeature fs = Some b).
Proof.
  intros H. split; [exact (highestPriorityFeature_first_max fs H)|].
  intros a b Ha Hb Hfs.
  assert (Ia : priorityIndex a = 2) by (unfold priorityIndex; rewrite Ha; reflexivity).
  assert (Ib : priorityIndex b = 4) by (unfold priorityIndex; rewrite Hb; reflexivity).
  repeat split; try assumption.
  unfold highestPriorityFeature, highestPriority.
  destruct Hfs as [-> | ->]; cbn [fold_left].
  - rewrite (visit_spec (None, -1) a) by (cbn; lia). cbn [snd]. rewrite Ia.
    change (-1 <? 2) with true. cbn iota.
    rewrite (visit_spec (Some a, 2) b) by (cbn; lia). cbn [snd]. rewrite Ib.
    reflexivity.
  - rewrite (visit_spec (None, -1) b) by (cbn; lia). cbn [snd]. rewrite Ib.
    change (-1 <? 4) with true. cbn iota.
    rewrite (visit_spec (Some b, 4) a) by (cbn; lia). cbn [snd]. rewrite Ia.
    reflexivity.
Qed.

(** C4, as the loop has it.  A feature whose layer is not in the priority
    order has index -1.  It is never the resolved feature: whatever the
    resolver returns is on a listed layer, and when no feature under the
    click point is on a listed layer the resolver returns nothing. *)
Theorem resolver_skips_unlisted_layers (fs : list (Feature Geometry)) :
  (forall g : Feature Geometry, ~ listed g -> priorityIndex g = -1) /\
  (forall f, highestPriorityFeature fs = Some f -> In f fs /\ listed f) /\
  ((forall g, In g fs -> ~ listed g) -> highestPriorityFeature fs = None).
Proof.
  split; [|split].
  - intros g Hg. apply priorityIndex_unlisted. exact Hg.
  - intros f. apply highestPriorityFeature_listed.
  - apply highestPriorityFeature_none.
Qed.

(** C5.  The popup's [close] listener sets the selection state to [null]
    whatever the state was, returns normally, and changes nothing else; on
    a world whose state is already [null] it changes nothing at all. *)
Theorem popup_close_unselects (w : World) :
  let w' := fst (onPopupClose w) in
  selectedDistrictId w' = JNull /\
  snd (onPopupClose w) = Normal tt /\
  zoom w' = zoom w /\ layers w' = layers w /\ paint w' = paint w /\
  popup w' = popup w /\
  (selectedDistrictId w = JNull -> w' = w).
Proof.
  cbn. do 6 (split; [reflexivity|]). destruct w; cbn. intros ->. reflexivity.
Qed.

(** C6, as the handler has it.  The area shown by the roadless-area popup
    is the Turf area in square meters divided by 4046.8564224.  The text
    is the dash when Turf throws on the geometry or when the quotient is
    not finite, and in these two cases only; otherwise it is the quotient
    formatted without fraction digits, and an area of zero is shown as
    "0".  The handler never throws. *)
Theorem area_text (g : Geometry) :
  (forall err, turf_area g = Throw err -> acresTxt turf_area g = emdash) /\
  (forall m2, turf_area g = Normal m2 ->
     isFinite (m2 / 4046.8564224)%float = false ->
     acresTxt turf_area g = emdash) /\
  (forall m2, turf_area g = Normal m2 ->
     isFinite (m2 / 4046.8564224)%float = true ->
     acresTxt turf_area g = num_toLocaleString 0 (m2 / 4046.8564224)%float) /\
  (turf_area g = Normal 0%float -> acresTxt turf_area g = lit "0") /\
  (acresTxt turf_area g = emdash <->
   (exists err, turf_area g = Throw err) \/
   (exists m2, turf_area g = Normal m2 /\
               isFinite (m2 / 4046.8564224)%float = false)) /\
  (forall e w, snd (onClick turf_area NAME_KEYS ID_KEYS e w) = Normal tt) /\
  (forall e w f rest,
     features e = Some (f :: rest) -> geometry f = g ->
     exists name uid,
       popup (fst (onClick turf_area NAME_KEYS ID_KEYS e w)) =
       Some (layer_lngLat e, AreaPopup name uid (acresTxt turf_area g))).
Proof.
  unfold acresTxt. split; [|split; [|split; [|split; [|split; [|split]]]]].
  - intros err ->. reflexivity.
  - intros m2 -> F. cbn [JS.bind try_or]. rewrite F. reflexivity.
  - intros m2 -> F. cbn [JS.bind try_or]. rewrite F. reflexivity.
  - intros ->. reflexivity.
  - destruct (turf_area g) as [m2|err]; cbn [JS.bind try_or].
    + destruct (isFinite (m2 / 4046.8564224)%float) eqn:F; cbn [try_or].
      * split.
        -- intros E. exfalso. exact (num_toLocaleString_not_dash _ _ E).
        -- intros [(err & E)|(m & E & F')]; [discriminate|].
           injection E as <-. congruence.
      * split; [|reflexivity]. intros _. right. exists m2. split; [reflexivity|exact F].
    + split; [|reflexivity]. intros _. left. exists err. reflexivity.
  - intros e w. unfold onClick. destruct (firstFeature e); reflexivity.
  - intros e w f rest He <-. unfold onClick, firstFeature. rewrite He.
    cbn. eauto.
Qed.

(** C7, as the handler has it.  For the dedicated [pct] source the length
    shown is the fixed text.  For an [oregon-trails] feature with a truthy
    [GIS_MILES] property it is the text [toLocaleString] gives for that
    property with [maximumFractionDigits: 1], followed by " miles": a
    number is formatted, a string is shown as it is.  In every other case
    the text is computed from the geometry: the number [turf.length]
    returns times 0.000621371, formatted in the same way and followed by
    " miles", and the dash exactly when Turf throws or the product is not
    finite.  The popup shows this text as the length. *)
Theorem trail_length_text (sourceId : string) (props : gmap string jsval)
  (g : Geometry) :
  (sourceId = "pct"%string ->
   lengthTxt turf_length sourceId props g =
   Normal (lit "456.5 miles (of 2,650 miles total)")) /\
  (sourceId = "oregon-trails"%string ->
   truthy (prop props "GIS_MILES") = true ->
   (exists miles,
      toLocaleString (prop props "GIS_MILES") 1 = Normal miles /\
      lengthTxt turf_length sourceId props g = Normal (miles ++ lit " miles")) /\
   (forall x, prop props "GIS_MILES" = JNum x ->
      lengthTxt turf_length sourceId props g =
      Normal (num_toLocaleString 1 x ++ lit " miles")) /\
   (forall s, prop props "GIS_MILES" = JStr s ->
      lengthTxt turf_length sourceId props g = Normal (s ++ lit " miles"))) /\
  (sourceId <> "pct"%string ->
   (sourceId = "oregon-trails"%string -> truthy (prop props "GIS_MILES") = false) ->
   (forall err, turf_length g = Throw err ->
      lengthTxt turf_length sourceId props g = Normal emdash) /\
   (forall lengthMeters, turf_length g = Normal lengthMeters ->
      isFinite (lengthMeters * 0.000621371)%float = false ->
      lengthTxt turf_length sourceId props g = Normal emdash) /\
   (forall lengthMeters, turf_length g = Normal lengthMeters ->
      isFinite (lengthMeters * 0.000621371)%float = true ->
      lengthTxt turf_length sourceId props g =
      Normal (num_toLocaleString 1 (lengthMeters * 0.000621371)%float
                ++ lit " miles")) /\
   (lengthTxt turf_length sourceId props g = Normal emdash <->
    (exists err, turf_length g = Throw err) \/
    (exists lengthMeters,
       turf_length g = Normal lengthMeters /\
       isFinite (lengthMeters * 0.000621371)%float = false))) /\
  (forall e w f rest trailName trailInfo txt,
     features e = Some (f :: rest) ->
     source f = sourceId -> propsOf f = props -> geometry f = g ->
     trailIdentity sourceId props = Normal (trailName, trailInfo) ->
     lengthTxt turf_length sourceId props g = Normal txt ->
     popup (fst (onTrailClick turf_length e w)) =
     Some (layer_lngLat e,
           TrailPopup (ToString trailName) (ToString trailInfo) txt)).
Proof.
  split; [|split; [|split]];
    [| | |intros e w f rest n i t He <- <- <- Hi Hl;
          rewrite (onTrailClick_shows turf_length e w f rest n i t He Hi Hl);
          reflexivity];
    unfold lengthTxt, str_eqb.
  - intros ->. reflexivity.
  - intros -> T. rewrite T. cbn [String.eqb Ascii.eqb Bool.eqb andb].
    split; [|split].
    + destruct (prop props "GIS_MILES") eqn:E; cbn in T; try discriminate;
        cbn; eauto.
    + intros x ->. reflexivity.
    + intros s ->. reflexivity.
  - intros Hp Ho.
    assert (E1 : (String.eqb sourceId "oregon-trails" && truthy (prop props "GIS_MILES")) = false).
    { destruct (String.eqb_spec sourceId "oregon-trails") as [Hs|Hs]; [|reflexivity].
      rewrite (Ho Hs). reflexivity. }
    assert (E2 : String.eqb sourceId "pct" = false) by (apply String.eqb_neq; exact Hp).
    rewrite E1, E2. split; [|split; [|split]].
    + intros err ->. reflexivity.
    + intros m -> F. cbn [JS.bind try_or]. rewrite F. reflexivity.
    + intros m -> F. cbn [JS.bind try_or]. rewrite F. reflexivity.
    + destruct (turf_length g) as [m|err]; cbn [JS.bind try_or].
      * destruct (isFinite (m * 0.000621371)%float) eqn:F; cbn [try_or].
        -- split.
           ++ intros E. exfalso. injection E as E.
              apply (num_toLocaleString_no_dash 1 (m * 0.000621371)%float).
              assert (I : In 8212%N emdash) by (left; reflexivity).
              rewrite <- E in I. apply in_app_or in I.
              destruct I as [I|I]; [exact I|].
              apply lit_below_256 in I. lia.
           ++ intros [(err & E)|(m' & E & F')]; [discriminate|].
              injection E as <-. congruence.
        -- split; [|reflexivity]. intros _. right. exists m.
           split; [reflexivity|exact F].
      * split; [|reflexivity]. intros _. left. exists err. reflexivity.
Qed.

(** C8.  For every district feature whose [LISTING_NA] and [DISTRICT], after
    their fallbacks, are the strings [raw] and [district], the popup is
    built and its label is
    "Rep. " + name + " (" + party + "–OR-" + padded + ")", where the name
    is "First Last" when [raw] splits on [", "] into exactly the two parts
    "Last" and "First" and is [raw] unchanged otherwise, and where the
    padded district number is [district] with one "0" in front when it has
    fewer than 2 code units and [district] unchanged otherwise. *)
Theorem district_label (props : gmap string jsval) (raw district : jsstring) :
  or_else (prop props "LISTING_NA") (JStr (lit "Unknown Representative")) = JStr raw ->
  or_else (prop props "DISTRICT") (JStr (lit "Unknown")) = JStr district ->
  let party := ToString (or_else (prop props "Party") (JStr (lit "Unknown"))) in
  exists name padded totalAcres roadlessAcres,
    districtPopup props =
    Normal (DistrictPopup district
              (lit "Rep. " ++ name ++ lit " (" ++ party ++ endash ++ lit "OR-"
                 ++ padded ++ lit ")")
              totalAcres roadlessAcres) /\
    (forall lastName firstName,
       str_split raw (lit ", ") = [lastName; firstName] ->
       name = firstName ++ lit " " ++ lastName) /\
    ((forall lastName firstName, str_split raw (lit ", ") <> [lastName; firstName]) ->
     name = raw) /\
    ((List.length district < 2)%nat -> padded = lit "0" ++ district) /\
    ((2 <= List.length district)%nat -> padded = district).
Proof.
  intros Hraw Hd party.
  destruct (districtPopup_strings props raw district Hraw Hd) as (t & r & _ & _ & E).
  exists (reorderName raw), (str_padStart district 2 (lit "0")), t, r.
  split; [exact E|]. unfold reorderName. split; [|split; [|split]].
  - intros l f ->. reflexivity.
  - intros H. destruct (str_split raw (lit ", ")) as [|a [|b [|c rest]]];
      try reflexivity. exfalso. exact (H a b eq_refl).
  - intros H.
    assert (Hne : district <> []).
    { apply (or_else_nonempty (prop props "DISTRICT") (lit "Unknown"));
        [discriminate|exact Hd]. }
    destruct district as [|c [|c' rest]]; [congruence|reflexivity|cbn in H; lia].
  - apply padStart2_long.
Qed.

(** C9.  For the dedicated [pct] source the trail popup has the fixed name
    and description, whatever the properties.  For the [oregon-trails]
    source: when [TRAIL_NAME] is a string that contains "PACIFIC CREST"
    (compared code unit by code unit, so in this case only) the name and
    description are those of the Pacific Crest Trail section; when
    [TRAIL_NAME] is falsy or a string without it, the name is the first
    truthy value among [TRAIL_NAME], [NAME] and [TRAIL], "Oregon Trail" if
    there is none, and the description is [DESCRIPTION], "A trail in
    Oregon" if that is falsy. *)
Theorem trail_classification (props : gmap string jsval) :
  let name := prop props "TRAIL_NAME" in
  trailIdentity "pct" props =
  Normal (JStr (lit "Pacific Crest Trail - Oregon"),
          JStr (lit "A long-distance hiking trail spanning the length of Oregon")) /\
  (forall s, name = JStr s -> str_includes s (lit "PACIFIC CREST") = true ->
     trailIdentity "oregon-trails" props =
     Normal (JStr (lit "Pacific Crest Trail - Oregon Section"),
             JStr (lit "A long-distance hiking trail spanning from Canada to Mexico"))) /\
  (stringOrFalsy name = true ->
   (forall s, name = JStr s -> str_includes s (lit "PACIFIC CREST") = false) ->
   exists trailName trailInfo,
     trailIdentity "oregon-trails" props = Normal (trailName, trailInfo) /\
     (truthy name = true -> trailName = name) /\
     (truthy name = false -> truthy (prop props "NAME") = true ->
      trailName = prop props "NAME") /\
     (truthy name = false -> truthy (prop props "NAME") = false ->
      truthy (prop props "TRAIL") = true -> trailName = prop props "TRAIL") /\
     (truthy name = false -> truthy (prop props "NAME") = false ->
      truthy (prop props "TRAIL") = false -> trailName = JStr (lit "Oregon Trail")) /\
     (truthy (prop props "DESCRIPTION") = true ->
      trailInfo = prop props "DESCRIPTION") /\
     (truthy (prop props "DESCRIPTION") = false ->
      trailInfo = JStr (lit "A trail in Oregon"))).
Proof.
  intros name. split; [reflexivity|]. split.
  - intros s Hs Hi. unfold trailIdentity. cbn [str_eqb String.eqb Ascii.eqb Bool.eqb].
    fold name. rewrite Hs. cbn [includes]. rewrite Hi.
    destruct s; [discriminate|]. reflexivity.
  - intros Hsf Hno. unfold trailIdentity. cbn [str_eqb String.eqb Ascii.eqb Bool.eqb].
    fold name.
    assert (E : (if truthy name then includes name (lit "PACIFIC CREST") else Normal false)
                = Normal false).
    { destruct (truthy name) eqn:T; [|reflexivity].
      destruct name eqn:N; cbn in Hsf, T; try discriminate;
        try (rewrite T in Hsf; discriminate).
      cbn [includes]. rewrite (Hno s eq_refl). reflexivity. }
    rewrite E. cbn [JS.bind]. eexists _, _. split; [reflexivity|].
    unfold or_else. split; [|split; [|split; [|split; [|split]]]].
    + intros ->. reflexivity.
    + intros -> ->. reflexivity.
    + intros -> -> ->. reflexivity.
    + intros -> -> ->. reflexivity.
    + intros ->. reflexivity.
    + intros ->. reflexivity.
Qed.

(** C10.  In the district popup a property that is present but falsy counts
    as absent.  When the popup is built ([LISTING_NA] and [DISTRICT] strings
    or falsy): a falsy [Acres] (0, the empty string) shows the dash and not
    a formatted number, and so does a falsy [SUM_RoadlessAreasAcres]; a
    falsy [DISTRICT] (the empty string) shows "Unknown" as district number,
    in the label too; a falsy [LISTING_NA] shows "Unknown Representative";
    a falsy [Party] shows "Unknown". *)
Theorem district_popup_falsy_is_absent (props : gmap string jsval) :
  stringOrFalsy (prop props "DISTRICT") = true ->
  stringOrFalsy (prop props "LISTING_NA") = true ->
  exists districtNumber name party padded totalAcres roadlessAcres,
    districtPopup props =
    Normal (DistrictPopup districtNumber
              (lit "Rep. " ++ name ++ lit " (" ++ party ++ endash ++ lit "OR-"
                 ++ padded ++ lit ")")
              totalAcres roadlessAcres) /\
    (truthy (prop props "Acres") = false -> totalAcres = emdash) /\
    (truthy (prop props "SUM_RoadlessAreasAcres") = false -> roadlessAcres = emdash) /\
    (truthy (prop props "DISTRICT") = false ->
     districtNumber = lit "Unknown" /\ padded = lit "Unknown") /\
    (truthy (prop props "LISTING_NA") = false -> name = lit "Unknown Representative") /\
    (truthy (prop props "Party") = false -> party = lit "Unknown").
Proof.
  intros Hd Hn.
  destruct (or_else_string _ (lit "Unknown") Hd) as [d Ed].
  destruct (or_else_string _ (lit "Unknown Representative") Hn) as [n En].
  destruct (districtPopup_strings props n d En Ed) as (t & r & Ht & Hr & E).
  eexists d, _, _, _, t, r. split; [exact E|].
  split; [|split; [|split; [|split]]].
  - intros T. rewrite (acresOrDash_falsy _ _ T) in Ht. congruence.
  - intros T. rewrite (acresOrDash_falsy _ _ T) in Hr. congruence.
  - intros T. rewrite (or_else_falsy _ _ T) in Ed. injection Ed as <-.
    split; reflexivity.
  - intros T. rewrite (or_else_falsy _ _ T) in En. injection En as <-. reflexivity.
  - intros T. rewrite (or_else_falsy _ _ T). reflexivity.
Qed.

End Behaviour.

(** ** The same on sample inputs *)

Import Sample.

(** From Unselected, a click that resolves to district "4" selects "4" and
    opens the popup of that district.  With a popup on the map the same
    click opens the popup and leaves the state [null]. *)
Lemma general_click_on_district_four :
  let w' := fst (generalClickHandler (clickOn [districtFour; roadlessOutline])
                   (world 5 JNull)) in
  selectedDistrictId w' = JStr (lit "4") /\
  popup w' =
  Some (((-121.7)%float, 45.4%float),
        DistrictPopup (lit "4")
          (lit "Rep. Jane Smith (D" ++ endash ++ lit "OR-04)")
          (lit "1,234,567.5") (lit "98,765")) /\
  selectedDistrictId
    (fst (generalClickHandler (clickOn [districtFour; roadlessOutline])
            (worldWithPopup 5 JNull))) = JNull.
Proof.
  destruct (proj1 (general_click_transition
                     (clickOn [districtFour; roadlessOutline]) (world 5 JNull))
              districtFour eq_refl (or_introl eq_refl))
    as (Hsel & _ & Hpop).
  destruct (proj1 (general_click_transition
                     (clickOn [districtFour; roadlessOutline])
                     (worldWithPopup 5 JNull))
              districtFour eq_refl (or_introl eq_refl))
    as (_ & _ & Hshown).
  split; [|split].
  - apply Hsel; reflexivity.
  - destruct (Hpop eq_refl eq_refl) as (content & Hc & Hp & _).
    rewrite Hp. vm_compute in Hc. injection Hc as <-. reflexivity.
  - destruct (Hshown eq_refl eq_refl) as (content & _ & _ & _ & Hnull).
    apply Hnull. discriminate.
Defined.

(** C1 fails as stated: the top feature is on a district layer, and the
    state after the click is [null], not Selected.  It does so on a
    district without [DISTRICT], and on district "4" when a popup is on
    the map as the handler runs. *)
Lemma click_on_unnumbered_district_unselects :
  highestPriorityFeature (under (clickOn [unnumberedDistrict])) = Some unnumberedDistrict /\
  layer unnumberedDistrict = Some lineLayer /\
  selectedDistrictId
    (fst (generalClickHandler (clickOn [unnumberedDistrict]) (world 5 (JStr (lit "2")))))
  = JNull /\
  highestPriorityFeature (under (clickOn [districtFour])) = Some districtFour /\
  layer districtFour = Some fillLayer /\
  selectedDistrictId
    (fst (generalClickHandler (clickOn [districtFour]) (worldWithPopup 5 JNull)))
  = JNull.
Proof. vm_compute. repeat split. Qed.

(** At zoom exactly 8 the selected district is set apart; at zoom 8.01 the
    constants are installed although a district is selected. *)
Lemma district_paint_at_the_threshold :
  districtPaint (fst (stylingEffect (world 8 (JStr (lit "4"))))) =
  (Some (whenSelected (JStr (lit "4")) 0.4 0.1),
   Some (whenSelected (JStr (lit "4")) 1.0 0.8),
   Some (whenSelected (JStr (lit "4")) 2.5 1.5)) /\
  districtPaint (fst (handleZoomChange (world 8.01 (JStr (lit "4"))))) =
  (Some (number 0.1), Some (number 0.8), Some (number 1.5)) /\
  eval (propsOf districtFour) (whenSelected (JStr (lit "4")) 0.4 0.1) = JNum 0.4 /\
  eval (propsOf blankDistrict) (whenSelected (JStr (lit "4")) 0.4 0.1) = JNum 0.1.
Proof.
  assert (Hf : forall z s, fillLayer ∈ layers (world z s)).
  { intros z s. apply elem_of_union_l, elem_of_singleton. reflexivity. }
  assert (Hl : forall z s, lineLayer ∈ layers (world z s)).
  { intros z s. apply elem_of_union_r, elem_of_singleton. reflexivity. }
  destruct (district_paint_derivation stylingEffect (world 8 (JStr (lit "4")))
              (or_introl eq_refl) (Hf _ _) (Hl _ _))
    as (_ & _ & _ & fo & lo & lw & Hp & Hd & _ & _ & Hsel).
  destruct (district_paint_derivation handleZoomChange (world 8.01 (JStr (lit "4")))
              (or_intror eq_refl) (Hf _ _) (Hl _ _))
    as (_ & _ & _ & fo' & lo' & lw' & Hp' & Hd' & Hhigh & _).
  split; [|split; [|split]].
  - rewrite Hp. vm_compute in Hd. injection Hd as -> -> ->. reflexivity.
  - rewrite Hp'. destruct (Hhigh eq_refl) as (-> & -> & ->). reflexivity.
  - vm_compute in Hd. injection Hd as -> -> ->.
    exact (proj1 (proj1 (Hsel (lit "4") eq_refl eq_refl ltac:(discriminate)
                           (propsOf districtFour)) eq_refl)).
  - vm_compute in Hd. injection Hd as -> -> ->.
    exact (proj1 (proj2 (Hsel (lit "4") eq_refl eq_refl ltac:(discriminate)
                           (propsOf blankDistrict)) ltac:(vm_compute; discriminate))).
Defined.

(** Of a roadless area and the Pacific Crest Trail under one point, the
    trail is resolved. *)
Lemma resolver_prefers_pct_line :
  highestPriorityFeature [roadlessArea; pacificCrest] = Some pacificCrest.
Proof.
  assert (H : exists g, In g [roadlessArea; pacificCrest] /\ listed g).
  { exists roadlessArea. split; [left; reflexivity|].
    exists "roadless-fill"%string. split; [reflexivity|].
    right. right. left. reflexivity. }
  exact (proj2 (proj2 (proj2 (resolver_first_of_greatest_index
                         [roadlessArea; pacificCrest] H)
                  roadlessArea pacificCrest eq_refl eq_refl (or_introl eq_refl)))).
Defined.

(** C3 fails as stated: the list is not empty, and nothing is returned. *)
Lemma resolver_returns_nothing_for_an_outline :
  [roadlessOutline] <> [] /\ highestPriorityFeature [roadlessOutline] = None.
Proof. split; [discriminate|reflexivity]. Qed.

Lemma unlisted_samples (g : Feature unit) :
  In g [roadlessOutline; water] -> ~ listed g.
Proof.
  intros [<-|[<-|[]]] (id & E & Hin); injection E as <-;
    cbn in Hin; intuition discriminate.
Defined.

(** Under a point with the outline and the base map only, nothing is
    resolved. *)
Lemma resolver_skips_outline_and_water :
  highestPriorityFeature [roadlessOutline; water] = None.
Proof.
  exact (proj2 (proj2 (resolver_skips_unlisted_layers [roadlessOutline; water]))
           unlisted_samples).
Defined.

(** C4 fails as stated: a feature of an unlisted layer is not returned even
    when no feature of a listed layer is under the click point. *)
Lemma unlisted_feature_is_never_resolved :
  ~ exists (fs : list (Feature unit)) (f : Feature unit),
      (forall g, In g fs -> ~ listed g) /\ highestPriorityFeature fs = Some f.
Proof.
  intros (fs & f & Hnone & Hf).
  rewrite (highestPriorityFeature_none fs Hnone) in Hf. discriminate.
Qed.

(** Closing the popup when nothing is selected changes nothing. *)
Lemma popup_close_when_unselected :
  fst (onPopupClose (world 5 JNull)) = world 5 JNull.
Proof.
  exact (proj2 (proj2 (proj2 (proj2 (proj2 (proj2
           (popup_close_unselects (world 5 JNull))))))) eq_refl).
Defined.

(** Ten acres, and what is shown when Turf throws. *)
Lemma area_text_samples :
  acresTxt (fun _ : unit => Normal 40468.564224%float) tt = lit "10" /\
  acresTxt (fun _ : unit => Throw TypeError) tt = emdash /\
  acresTxt (fun _ : unit => Normal PrimFloat.infinity) tt = emdash.
Proof.
  split; [|split].
  - rewrite (proj1 (proj2 (proj2 (area_text (fun _ : unit => Normal 40468.564224%float)
                                     [] [] tt))) _ eq_refl eq_refl).
    reflexivity.
  - exact (proj1 (area_text (fun _ : unit => Throw TypeError) [] [] tt) _ eq_refl).
  - exact (proj1 (proj2 (area_text (fun _ : unit => Normal PrimFloat.infinity) [] [] tt))
             _ eq_refl eq_refl).
Defined.

(** C6 fails as stated: an area of zero is shown as "0", not as the
    dash. *)
Lemma zero_area_is_shown_as_zero :
  acresTxt (fun _ : unit => Normal 0%float) tt = lit "0" /\ lit "0" <> emdash.
Proof. split; [reflexivity|discriminate]. Qed.

(** The three sources of the length text.  A [GIS_MILES] of 12.35 is
    shown as 12.4, and a [GIS_MILES] that is a string as it is. *)
Lemma trail_length_samples :
  lengthTxt (fun _ : unit => Normal 1000%float) "pct" crestSegment tt =
  Normal (lit "456.5 miles (of 2,650 miles total)") /\
  lengthTxt (fun _ : unit => Normal 1000%float) "oregon-trails" crestSegment tt =
  Normal (lit "12.3 miles") /\
  lengthTxt (fun _ : unit => Normal 1000%float) "oregon-trails" milesHalfway tt =
  Normal (lit "12.4 miles") /\
  lengthTxt (fun _ : unit => Normal 1000%float) "oregon-trails" milesAsText tt =
  Normal (lit "12.349 miles") /\
  lengthTxt (fun _ : unit => Normal 1000%float) "oregon-trails" lowerCaseCrest tt =
  Normal (lit "0.6 miles") /\
  lengthTxt (fun _ : unit => Throw TypeError) "oregon-trails" lowerCaseCrest tt =
  Normal emdash.
Proof.
  split; [|split; [|split; [|split; [|split]]]].
  - exact (proj1 (trail_length_text (fun _ : unit => Normal 1000%float)
                    "pct" crestSegment tt) eq_refl).
  - destruct (proj1 (proj1 (proj2 (trail_length_text (fun _ : unit => Normal 1000%float)
                                     "oregon-trails" crestSegment tt))
                       eq_refl eq_refl))
      as (miles & Hm & ->).
    vm_compute in Hm. injection Hm as <-. reflexivity.
  - rewrite (proj1 (proj2 (proj1 (proj2 (trail_length_text
               (fun _ : unit => Normal 1000%float) "oregon-trails" milesHalfway tt))
               eq_refl eq_refl)) 12.35%float eq_refl).
    reflexivity.
  - exact (proj2 (proj2 (proj1 (proj2 (trail_length_text
               (fun _ : unit => Normal 1000%float) "oregon-trails" milesAsText tt))
               eq_refl eq_refl)) (lit "12.349") eq_refl).
  - rewrite (proj1 (proj2 (proj2 (proj1 (proj2 (proj2 (trail_length_text
               (fun _ : unit => Normal 1000%float) "oregon-trails" lowerCaseCrest tt)))
               ltac:(discriminate) (fun _ => eq_refl)))) _ eq_refl eq_refl).
    reflexivity.
  - exact (proj1 (proj1 (proj2 (proj2 (trail_length_text
               (fun _ : unit => Throw TypeError) "oregon-trails" lowerCaseCrest tt)))
               ltac:(discriminate) (fun _ => eq_refl)) _ eq_refl).
Defined.

(** C7 fails as stated: on the generic source the length shown is the
    [GIS_MILES] property, 12.3, and not the text computed from the
    geometry with the factor, which is "0.6 miles" on this input. *)
Lemma trail_length_prefers_gis_miles :
  lengthTxt (fun _ : unit => Normal 1000%float) "oregon-trails" crestSegment tt =
  Normal (lit "12.3 miles") /\
  num_toLocaleString 1 (1000 * 0.000621371)%float ++ lit " miles" = lit "0.6 miles".
Proof. split; reflexivity. Qed.

(** The slip of lines 173-174: [turf.length] returns kilometers and the
    factor is the one from meters.  A trail of 10 kilometers is shown as
    "0 miles"; in miles it is 6.2. *)
Lemma ten_kilometers_are_shown_as_no_miles :
  lengthTxt (fun _ : unit => Normal 10%float) "oregon-trails" lowerCaseCrest tt =
  Normal (lit "0 miles") /\
  num_toLocaleString 1 (computeLengthMiles 10) = lit "6.2".
Proof. split; reflexivity. Qed.

(** "Smith, Jane" of district "4". *)
Lemma district_label_of_district_four :
  exists totalAcres roadlessAcres,
    districtPopup (propsOf districtFour) =
    Normal (DistrictPopup (lit "4")
              (lit "Rep. Jane Smith (D" ++ endash ++ lit "OR-04)")
              totalAcres roadlessAcres).
Proof.
  destruct (district_label (propsOf districtFour) (lit "Smith, Jane") (lit "4")
              eq_refl eq_refl)
    as (name & padded & t & r & E & Hname & _ & Hpad & _).
  exists t, r. rewrite E.
  rewrite (Hname (lit "Smith") (lit "Jane") eq_refl).
  rewrite (Hpad ltac:(cbn; lia)). reflexivity.
Defined.

(** The override applies to upper case only, and not to the [pct]
    source. *)
Lemma trail_classification_samples :
  trailIdentity "oregon-trails" crestSegment =
  Normal (JStr (lit "Pacific Crest Trail - Oregon Section"),
          JStr (lit "A long-distance hiking trail spanning from Canada to Mexico")) /\
  trailIdentity "oregon-trails" lowerCaseCrest =
  Normal (JStr (lit "Pacific Crest Trail"), JStr (lit "A trail in Oregon")) /\
  trailIdentity "pct" crestSegment =
  Normal (JStr (lit "Pacific Crest Trail - Oregon"),
          JStr (lit "A long-distance hiking trail spanning the length of Oregon")).
Proof.
  split; [|split].
  - exact (proj1 (proj2 (trail_classification crestSegment)) _ eq_refl eq_refl).
  - destruct (proj2 (proj2 (trail_classification lowerCaseCrest)) eq_refl)
      as (n & i & E & Hn & _ & _ & _ & _ & Hi).
    + intros s Hs. injection Hs as <-. reflexivity.
    + rewrite E, (Hn eq_refl), (Hi eq_refl). reflexivity.
  - exact (proj1 (trail_classification crestSegment)).
Defined.

(** Properties that are present and falsy: zero acres and empty strings. *)
Lemma blank_district_popup :
  districtPopup (propsOf blankDistrict) =
  Normal (DistrictPopup (lit "Unknown")
            (lit "Rep. Unknown Representative (Unknown" ++ endash ++ lit "OR-Unknown)")
            emdash emdash).
Proof.
  destruct (district_popup_falsy_is_absent (propsOf blankDistrict) eq_refl eq_refl)
    as (d & n & p & pad & t & r & E & Ht & Hr & Hd & Hn & Hp).
  rewrite E, (Ht eq_refl), (Hr eq_refl), (Hn eq_refl), (Hp eq_refl).
  destruct (Hd eq_refl) as [-> ->]. reflexivity.
Defined.

(** "Smith, Jane" is reordered; a name without [", "] and a name with two
    are kept.  "3" is padded to "03" and "12" is kept. *)
Lemma reorderName_samples :
  reorderName (lit "Smith, Jane") = lit "Jane Smith" /\
  reorderName (lit "Unknown Representative") = lit "Unknown Representative" /\
  reorderName (lit "Smith, Jane, Jr.") = lit "Smith, Jane, Jr." /\
  str_padStart (lit "3") 2 (lit "0") = lit "03" /\
  str_padStart (lit "12") 2 (lit "0") = lit "12".
Proof. repeat split. Qed.

(** From Unselected at zoom 5, a click that resolves to district "4"
    followed by the styling effect: the state is "4" and the fill opacity
    compares [DISTRICT] with "4" for 0.4 against 0.1. *)
Lemma click_then_restyle_on_district_four :
  let w1 := fst (generalClickHandler (clickOn [roadlessOutline; districtFour])
                   (world 5 JNull)) in
  let w2 := fst (stylingEffect w1) in
  selectedDistrictId w2 = JStr (lit "4") /\
  paint w2 !! (fillLayer, "fill-opacity"%string) =
  Some (whenSelected (JStr (lit "4")) 0.4 0.1).
Proof. split; vm_compute; reflexivity. Qed.

(** A district number that is a number is stored as the state, and then
    [padStart] throws: no popup is opened. *)
Lemma click_on_numeric_district_throws :
  generalClickHandler (clickOn [numericDistrict]) (world 5 JNull) =
  (world 5 (JNum 4), Throw TypeError).
Proof. vm_compute. reflexivity. Qed.

(** * Further properties of the handlers *)

(** ** The layer-priority loop, continued *)

Section ResolverMore.

Context {Geometry : Type}.
Implicit Types (f g : Feature Geometry) (fs : list (Feature Geometry)).

Lemma highestPriority_index_lower fs : -1 <= snd (highestPriority fs).
Proof.
  destruct (highestPriority_holds fs) as [_ [[-> _]|(_ & _ & _ & _ & _ & _ & H & _)]]; lia.
Qed.

(** The index held by the loop is the index of the feature held. *)
Lemma highestPriority_index fs :
  snd (highestPriority fs) =
  match highestPriorityFeature fs with
  | Some f => priorityIndex f
  | None => -1
  end.
Proof.
  unfold highestPriorityFeature.
  destruct (highestPriority_holds fs) as [_ [[-> ->]|(_ & f & _ & _ & -> & -> & _)]];
    reflexivity.
Qed.

(** The loop started from any pair it can hold. *)
Lemma fold_visit_from fs (r : option (Feature Geometry)) (i : Z) :
  -1 <= i ->
  fold_left visit fs (r, i) =
  if i <? snd (highestPriority fs) then highestPriority fs else (r, i).
Proof.
  intros Hi. induction fs as [|x fs IH] using rev_ind.
  - cbn. destruct (Z.ltb_spec i (-1)); [lia|reflexivity].
  - rewrite fold_left_app, highestPriority_snoc. cbn [fold_left]. rewrite IH.
    pose proof (highestPriority_index_lower fs) as Hl.
    pose proof (priorityIndex_lower x) as Hx.
    destruct (highestPriority fs) as [r2 i2]. cbn [snd] in *.
    rewrite (visit_spec (r2, i2) x) by exact Hl. cbn [snd].
    destruct (Z.ltb_spec i i2), (Z.ltb_spec i2 (priorityIndex x));
      rewrite visit_spec by (cbn [snd]; lia); cbn [snd];
      repeat match goal with
             | |- context [?a <? ?b] => destruct (Z.ltb_spec a b); try lia
             end; reflexivity.
Qed.

(** X1.  Features on layers outside the priority order have no effect on
    the resolution: dropping one from the list under the click point, at
    any position, leaves the resolved feature the same. *)
Theorem resolver_ignores_unlisted (pre post : list (Feature Geometry)) u :
  ~ listed u ->
  highestPriorityFeature (pre ++ u :: post) = highestPriorityFeature (pre ++ post).
Proof.
  intros Hu. unfold highestPriorityFeature, highestPriority.
  rewrite !fold_left_app. cbn [fold_left]. f_equal. f_equal.
  fold (highestPriority pre).
  rewrite visit_spec by apply highestPriority_index_lower.
  apply priorityIndex_unlisted in Hu. rewrite Hu.
  pose proof (highestPriority_index_lower pre).
  destruct (Z.ltb_spec (snd (highestPriority pre)) (-1)); [lia|reflexivity].
Qed.

(** X2.  Resolving a concatenation: the feature resolved in the second
    part wins only when its index is strictly greater than the index of
    the feature resolved in the first part. *)
Theorem resolver_concat fs1 fs2 :
  highestPriorityFeature (fs1 ++ fs2) =
  match highestPriorityFeature fs1, highestPriorityFeature fs2 with
  | Some a, Some b => if priorityIndex a <? priorityIndex b then Some b else Some a
  | Some a, None => Some a
  | None, r => r
  end.
Proof.
  unfold highestPriorityFeature at 1. unfold highestPriority.
  rewrite fold_left_app. fold (highestPriority fs1).
  destruct (highestPriority fs1) as [r1 i1] eqn:E1.
  pose proof (highestPriority_index_lower fs1) as L1.
  pose proof (highestPriority_index fs1) as I1.
  pose proof (highestPriority_index fs2) as I2.
  pose proof (highestPriority_index_lower fs2) as L2.
  unfold highestPriorityFeature in *. rewrite E1 in L1, I1 |- *. cbn [fst snd] in *.
  rewrite fold_visit_from by exact L1.
  pose proof (highestPriority_holds fs2) as H2.
  destruct (highestPriority fs2) as [r2 i2]. cbn [fst snd] in *.
  destruct r1 as [a|], r2 as [b|]; subst i1 i2.
  - destruct (priorityIndex a <? priorityIndex b); reflexivity.
  - destruct (Z.ltb_spec (priorityIndex a) (-1)); [lia|reflexivity].
  - destruct (Z.ltb_spec (-1) (priorityIndex b)) as [|Hb]; [reflexivity|].
    exfalso.
    destruct H2 as [_ [[_ Hn]|(_ & f & _ & _ & Hr & Hf & H0 & _)]];
      [discriminate|lia].
  - reflexivity.
Qed.

End ResolverMore.

(** ** The click handlers, continued *)

Lemma stringOrFalsy_false (v : jsval) :
  stringOrFalsy v = false ->
  truthy v = true /\ forall s, v <> JStr s.
Proof.
  destruct v; cbn; intros H; try discriminate;
    (split; [now apply negb_false_iff in H|discriminate]).
Qed.

(** The district popup cannot be built exactly when [DISTRICT] or
    [LISTING_NA] is truthy and not a string. *)
Lemma districtPopup_throws_iff (props : gmap string jsval) :
  districtPopup props = Throw TypeError <->
  stringOrFalsy (prop props "DISTRICT") = false \/
  stringOrFalsy (prop props "LISTING_NA") = false.
Proof.
  split.
  - intros E.
    destruct (stringOrFalsy (prop props "DISTRICT")) eqn:Sd; [|left; reflexivity].
    destruct (stringOrFalsy (prop props "LISTING_NA")) eqn:Sn; [|right; reflexivity].
    destruct (districtPopup_normal props Sd Sn) as [c Ec]. congruence.
  - intros H. unfold districtPopup.
    destruct (acresOrDash_normal (prop props "Acres") 3) as [t ->].
    destruct (acresOrDash_normal (prop props "SUM_RoadlessAreasAcres") 0) as [r ->].
    cbn [JS.bind].
    destruct (stringOrFalsy (prop props "LISTING_NA")) eqn:Sn.
    + destruct H as [Sd|]; [|discriminate].
      destruct (or_else_string _ (lit "Unknown Representative") Sn) as [n ->].
      rewrite formattedRepresentativeName_string. cbn [JS.bind].
      apply stringOrFalsy_false in Sd. destruct Sd as [T Hs].
      rewrite (or_else_truthy _ _ T). unfold formattedName.
      destruct (prop props "DISTRICT"); cbn in T |- *; try discriminate;
        try reflexivity. exfalso. exact (Hs _ eq_refl).
    + apply stringOrFalsy_false in Sn. destruct Sn as [T Hs].
      rewrite (or_else_truthy _ _ T). unfold formattedRepresentativeName.
      destruct (prop props "LISTING_NA"); cbn in T |- *; try discriminate;
        try reflexivity. exfalso. exact (Hs _ eq_refl).
Qed.

Section ClickMore.

Context {Geometry : Type}.
Variable turf_area : Geometry -> completion float.
Variable turf_length : Geometry -> completion float.
Variables NAME_KEYS ID_KEYS : list string.
Implicit Types (f g : Feature Geometry) (w : World).

(** X3.  A click with a roadless area or a trail under it never selects a
    district, whatever else is under the click point: the state is set to
    [null], the popup is left alone and the handler returns normally. *)
Theorem click_over_area_or_trail_unselects (e : MapMouseEvent Geometry) w g :
  In g (under e) ->
  layer g = Some "roadless-fill"%string \/
  layer g = Some "oregon-trails-line"%string \/
  layer g = Some "pct-line"%string ->
  let w' := fst (generalClickHandler e w) in
  selectedDistrictId w' = JNull /\ popup w' = popup w /\
  snd (generalClickHandler e w) = Normal tt.
Proof.
  intros Hg Hl w'.
  assert (Ig : 2 <= priorityIndex g).
  { unfold priorityIndex. destruct Hl as [->|[->| ->]]; cbn; lia. }
  assert (Lg : listed g) by (apply priorityIndex_listed; lia).
  destruct (highestPriorityFeature_first_max (under e) (ex_intro _ g (conj Hg Lg)))
    as (before & f & after & Hfs & Hf & Hb & Ha).
  assert (If : 2 <= priorityIndex f).
  { rewrite Hfs in Hg. apply in_app_or in Hg. destruct Hg as [Hg|[<-|Hg]].
    - specialize (Hb g Hg). lia.
    - exact Ig.
    - specialize (Ha g Hg). lia. }
  subst w'. rewrite (generalClickHandler_elsewhere e w).
  - repeat split.
  - right. exists f. split; [exact Hf|].
    destruct (onDistrictLayer f) eqn:E; [|reflexivity].
    apply onDistrictLayer_spec in E. unfold priorityIndex in If.
    destruct E as [E|E]; rewrite E in If; cbn in If; lia.
Qed.

(** X4.  The map-wide click handler throws exactly when the resolved
    feature is on a district layer and its [DISTRICT] or its [LISTING_NA]
    is truthy and not a string.  It has then already set the state, to
    [DISTRICT] or [null], and it opens no popup. *)
Theorem general_click_throws_exactly_when (e : MapMouseEvent Geometry) w :
  (snd (generalClickHandler e w) = Throw TypeError <->
   exists f,
     highestPriorityFeature (under e) = Some f /\
     (layer f = Some fillLayer \/ layer f = Some lineLayer) /\
     (stringOrFalsy (prop (propsOf f) "DISTRICT") = false \/
      stringOrFalsy (prop (propsOf f) "LISTING_NA") = false)) /\
  (snd (generalClickHandler e w) = Throw TypeError ->
   popup (fst (generalClickHandler e w)) = popup w /\
   exists f,
     highestPriorityFeature (under e) = Some f /\
     selectedDistrictId (fst (generalClickHandler e w)) =
     or_else (prop (propsOf f) "DISTRICT") JNull).
Proof.
  unfold generalClickHandler.
  destruct (highestPriorityFeature (under e)) as [f|] eqn:Hf.
  - destruct (onDistrictLayer f) eqn:Hd.
    + unfold seq, setSelectedDistrictId, lift, showPopup.
      destruct (districtPopup (propsOf f)) as [c|[]] eqn:Hp; cbn [fst snd].
      * split; [|discriminate]. split; [discriminate|].
        intros (f' & E & _ & Hs). injection E as <-.
        apply districtPopup_throws_iff in Hs. congruence.
      * split.
        -- split; [|reflexivity]. intros _. exists f.
           split; [reflexivity|]. split.
           ++ apply onDistrictLayer_spec in Hd. tauto.
           ++ apply districtPopup_throws_iff. exact Hp.
        -- intros _. split; [reflexivity|]. exists f. split; reflexivity.
    + cbn. split; [|discriminate]. split; [discriminate|].
      intros (f' & E & Hl & _). injection E as <-.
      assert (onDistrictLayer f = true) by (apply onDistrictLayer_spec; tauto).
      congruence.
  - cbn. split; [|discriminate]. split; [discriminate|].
    intros (f' & E & _). discriminate.
Qed.

(** X5.  The layer click handlers never select a district.  [onClick]
    and [onTrailClick] leave the zoom, the layers and the paint as they
    are, and the state afterwards is the state before or [null].  With no
    popup on the map the state is unchanged.  With a popup on the map and
    a feature in the event, showing the popup closes the one on the map
    first and the [close] listener sets the state to [null]: always for
    [onClick], and for [onTrailClick] unless it throws, which leaves the
    world as it is.  An event without feature leaves the whole world as it
    is. *)
Theorem layer_clicks_never_select (e : MapLayerMouseEvent Geometry) w :
  let area := fst (onClick turf_area NAME_KEYS ID_KEYS e w) in
  let trail := fst (onTrailClick turf_length e w) in
  (zoom area = zoom w /\ layers area = layers w /\ paint area = paint w /\
   (selectedDistrictId area = selectedDistrictId w \/
    selectedDistrictId area = JNull)) /\
  (zoom trail = zoom w /\ layers trail = layers w /\ paint trail = paint w /\
   (selectedDistrictId trail = selectedDistrictId w \/
    selectedDistrictId trail = JNull)) /\
  (popup w = None ->
   selectedDistrictId area = selectedDistrictId w /\
   selectedDistrictId trail = selectedDistrictId w) /\
  (popup w <> None ->
   forall f rest, features e = Some (f :: rest) ->
     selectedDistrictId area = JNull /\
     (snd (onTrailClick turf_length e w) = Normal tt ->
      selectedDistrictId trail = JNull) /\
     (snd (onTrailClick turf_length e w) <> Normal tt -> trail = w)) /\
  ((features e = None \/ features e = Some []) -> area = w /\ trail = w).
Proof.
  unfold onClick, onTrailClick, firstFeature.
  destruct (features e) as [[|f rest]|]; cbn [fst snd ret].
  - repeat split; auto; intros; discriminate.
  - unfold seq, lift, showPopup.
    destruct (trailIdentity _ _) as [i|[]];
      [destruct (lengthTxt _ _ _ _) as [t|[]]|];
      destruct (popup w) as [shown|]; cbn;
      repeat split; auto; intros;
        try congruence; try discriminate;
        match goal with
        | H : _ \/ _ |- _ => destruct H; discriminate
        | _ => idtac
        end.
  - repeat split; auto; intros; discriminate.
Qed.

End ClickMore.

(** ** Paint of the district layers, continued *)

Import Session.

Lemma stylingEffect_any (w : World) :
  stylingEffect w =
  (repaintedWhere w (derivedPaint (selectedDistrictId w) (zoom w)), Normal tt).
Proof.
  destruct w as [sel z ls p pop].
  unfold stylingEffect, derivedPaint, seq, getZoom, getSelectedDistrictId,
    getLayer, when, setPaintProperty, repaintedWhere, ret.
  cbn [selectedDistrictId zoom layers paint popup].
  destruct (z <=? 8)%float; cbn [andb];
    [destruct (truthy sel)|];
    destruct (bool_decide (fillLayer ∈ ls)) eqn:F,
             (bool_decide (lineLayer ∈ ls)) eqn:L;
    repeat (progress (cbn; rewrite ?F, ?L)); reflexivity.
Qed.

Lemma handleZoomChange_any (w : World) :
  handleZoomChange w =
  (repaintedWhere w (derivedPaint (selectedDistrictId w) (zoom w)), Normal tt).
Proof.
  destruct w as [sel z ls p pop].
  unfold handleZoomChange, derivedPaint, seq, getZoom, getSelectedDistrictId,
    getLayer, when, setPaintProperty, repaintedWhere, ret.
  cbn [selectedDistrictId zoom layers paint popup].
  destruct (z <=? 8)%float; cbn [andb];
    [destruct (truthy sel)|];
    destruct (bool_decide (fillLayer ∈ ls)) eqn:F,
             (bool_decide (lineLayer ∈ ls)) eqn:L;
    repeat (progress (cbn; rewrite ?F, ?L)); reflexivity.
Qed.

Lemma repaintedWhere_twice (w : World) (values : expr * expr * expr) :
  repaintedWhere (repaintedWhere w values) values = repaintedWhere w values.
Proof.
  unfold repaintedWhere. cbn [layers paint selectedDistrictId zoom popup].
  f_equal.
  destruct (bool_decide (fillLayer ∈ layers w)),
           (bool_decide (lineLayer ∈ layers w)); try reflexivity;
    apply map_eq; intros k; rewrite !lookup_insert;
    repeat case_decide; congruence.
Qed.

(** X6.  The styling effect and the zoom listener are one function: on
    every world, with or without the district layers, they return the same
    world and never throw.  They set the values derived from the state and
    the zoom on the district layers the map has and leave every other paint
    value, the state, the zoom, the layers and the popup as they are; and
    running either a second time changes nothing. *)
Theorem styling_agrees_with_zoom_listener (w : World) :
  let w' := fst (stylingEffect w) in
  handleZoomChange w = stylingEffect w /\
  snd (stylingEffect w) = Normal tt /\
  w' = repaintedWhere w (derivedPaint (selectedDistrictId w) (zoom w)) /\
  selectedDistrictId w' = selectedDistrictId w /\ zoom w' = zoom w /\
  layers w' = layers w /\ popup w' = popup w /\
  (forall key,
     paint w' !! key <> paint w !! key ->
     fst key ∈ layers w /\
     (key = (fillLayer, "fill-opacity"%string) \/
      key = (lineLayer, "line-opacity"%string) \/
      key = (lineLayer, "line-width"%string))) /\
  stylingEffect w' = stylingEffect w.
Proof.
  cbv zeta. rewrite handleZoomChange_any, stylingEffect_any. cbn [fst snd].
  set (v := derivedPaint (selectedDistrictId w) (zoom w)).
  repeat (split; [reflexivity|]). split.
  - intros key Hne. unfold repaintedWhere in Hne. cbn [paint] in Hne.
    destruct (bool_decide (fillLayer ∈ layers w)) eqn:F,
             (bool_decide (lineLayer ∈ layers w)) eqn:L;
      try apply bool_decide_eq_true in F; try apply bool_decide_eq_true in L;
      rewrite ?lookup_insert in Hne; repeat case_decide; subst; cbn [fst];
      try congruence; split; auto.
  - rewrite stylingEffect_any.
    cbn [selectedDistrictId zoom repaintedWhere]. fold v.
    f_equal. exact (repaintedWhere_twice w v).
Qed.

(** X7.  Whatever is selected, of whatever type, the three installed
    values agree on every feature: they evaluate to 0.4, 1.0 and 2.5
    together or to 0.1, 0.8 and 1.5 together, and to the first exactly
    when the zoom is at most 8, the state is truthy and the [DISTRICT] of
    the feature, [null] when the feature has none, is strictly equal to
    the state.  A feature without [DISTRICT] is never set apart. *)
Theorem highlight_exactly_the_selected (selected : jsval) (z : float)
  (props : gmap string jsval) :
  let '(fillOpacity, lineOpacity, lineWidth) := derivedPaint selected z in
  let here :=
    (z <=? 8)%float && truthy selected
    && strict_equals (eval props (Get "DISTRICT")) selected in
  eval props fillOpacity = JNum (if here then 0.4 else 0.1) /\
  eval props lineOpacity = JNum (if here then 1.0 else 0.8) /\
  eval props lineWidth = JNum (if here then 2.5 else 1.5) /\
  (props !! "DISTRICT"%string = None -> here = false).
Proof.
  unfold derivedPaint.
  destruct ((z <=? 8)%float && truthy selected) eqn:E; cbn [andb].
  - rewrite !whenSelected_eval. repeat split.
    intros Hp. cbn [eval]. rewrite Hp.
    apply andb_true_iff in E. destruct E as [_ T].
    destruct selected; cbn in T |- *; try discriminate; reflexivity.
  - repeat split.
Qed.

Lemma onPopupClose_eq (w : World) :
  onPopupClose w =
  ({| selectedDistrictId := JNull; zoom := zoom w; layers := layers w;
      paint := paint w; popup := popup w |}, Normal tt).
Proof. reflexivity. Qed.

Section RoundTrip.

Context {Geometry : Type}.

(** X8.  Selecting leaves no trace in the paint once the popup is closed:
    after any click and the styling effect, closing the popup and the
    styling effect give the state [null] and the very paint they give on
    the world before the click. *)
Theorem select_then_close_restores_paint (e : MapMouseEvent Geometry) (w : World) :
  let restyled (w0 : World) := fst (stylingEffect w0) in
  let closed (w0 : World) := restyled (fst (onPopupClose w0)) in
  let clicked := restyled (fst (generalClickHandler e w)) in
  selectedDistrictId (closed clicked) = JNull /\
  paint (closed clicked) = paint (closed w) /\
  zoom (closed clicked) = zoom w /\ layers (closed clicked) = layers w.
Proof.
  cbv zeta. destruct (generalClickHandler_frame e w) as (Hz & Hl & Hp).
  rewrite !stylingEffect_any, !onPopupClose_eq. cbn [fst].
  unfold repaintedWhere. cbn [selectedDistrictId zoom layers paint popup].
  rewrite ?Hz, ?Hl, ?Hp.
  split; [reflexivity|]. split; [|split; reflexivity].
  unfold derivedPaint. cbn [truthy]. rewrite !andb_false_r.
  cbn [fst snd].
  destruct (bool_decide (fillLayer ∈ layers w)),
           (bool_decide (lineLayer ∈ layers w)); try reflexivity;
    apply map_eq; intros k; rewrite !lookup_insert;
    repeat case_decide; congruence.
Qed.

End RoundTrip.

(** ** The reachable worlds *)

Section Invariant.

Context {Geometry : Type}.
Variable turf_area : Geometry -> completion float.
Variable turf_length : Geometry -> completion float.
Variables NAME_KEYS ID_KEYS : list string.

Lemma onClick_selection (e : MapLayerMouseEvent Geometry) (w : World) :
  selectedDistrictId (fst (onClick turf_area NAME_KEYS ID_KEYS e w)) =
  selectedDistrictId w \/
  selectedDistrictId (fst (onClick turf_area NAME_KEYS ID_KEYS e w)) = JNull.
Proof.
  unfold onClick, showPopup.
  destruct (firstFeature e); [|left; reflexivity].
  destruct (popup w); cbn; auto.
Qed.

Lemma onTrailClick_selection (e : MapLayerMouseEvent Geometry) (w : World) :
  selectedDistrictId (fst (onTrailClick turf_length e w)) = selectedDistrictId w \/
  selectedDistrictId (fst (onTrailClick turf_length e w)) = JNull.
Proof.
  unfold onTrailClick, seq, lift, showPopup.
  destruct (firstFeature e); [|left; reflexivity].
  destruct (trailIdentity _ _); [destruct (lengthTxt _ _ _ _)|];
    cbn; auto.
  destruct (popup w); cbn; auto.
Qed.

Lemma generalClickHandler_selection (e : MapMouseEvent Geometry) (w : World) :
  selectedDistrictId (fst (generalClickHandler e w)) = JNull \/
  truthy (selectedDistrictId (fst (generalClickHandler e w))) = true.
Proof.
  unfold generalClickHandler.
  destruct (highestPriorityFeature (under e)) as [f|]; [|left; reflexivity].
  destruct (onDistrictLayer f); [|left; reflexivity].
  unfold seq, setSelectedDistrictId, lift, showPopup, or_else.
  destruct (truthy (prop (propsOf f) "DISTRICT")) eqn:T;
    destruct (districtPopup (propsOf f)); cbn; auto;
    destruct (popup w); cbn; auto.
Qed.

(** X9.  In every world a session can reach, the selection state is [null]
    or truthy: it is never the empty string, zero or [undefined].  The test
    [if (selectedDistrictId)] of the styling code therefore separates
    exactly Unselected from Selected. *)
Theorem selection_is_null_or_truthy (w : World) :
  reachable turf_area turf_length NAME_KEYS ID_KEYS w ->
  (selectedDistrictId w = JNull \/ truthy (selectedDistrictId w) = true) /\
  (truthy (selectedDistrictId w) = false <-> selectedDistrictId w = JNull).
Proof.
  intros R.
  assert (H : selectedDistrictId w = JNull \/ truthy (selectedDistrictId w) = true).
  { induction R as [w H|w w' _ IH E|e w _ _|e w _ IH|e w _ IH|w _ _|w _ IH|w _ IH].
    - left. exact H.
    - rewrite E. exact IH.
    - apply generalClickHandler_selection.
    - destruct (onClick_selection e w) as [-> | ->]; [exact IH|left; reflexivity].
    - destruct (onTrailClick_selection e w) as [-> | ->];
        [exact IH|left; reflexivity].
    - left. reflexivity.
    - rewrite stylingEffect_any. exact IH.
    - rewrite handleZoomChange_any. exact IH. }
  split; [exact H|]. split.
  - intros T. destruct H as [H|H]; [exact H|congruence].
  - intros ->. reflexivity.
Qed.

End Invariant.

(** ** The area and trail popups, continued *)

Lemma find_first {A : Type} (p : A -> bool) (before after : list A) (x : A) :
  (forall y, In y before -> p y = false) -> p x = true ->
  List.find p (before ++ x :: after) = Some x.
Proof.
  intros Hb Hx. induction before as [|y before IH]; cbn.
  - rewrite Hx. reflexivity.
  - rewrite (Hb y) by (left; reflexivity).
    apply IH. intros z Hz. apply Hb. right. exact Hz.
Qed.

Lemma find_none {A : Type} (p : A -> bool) (l : list A) :
  (forall y, In y l -> p y = false) -> List.find p l = None.
Proof.
  intros H. induction l as [|y l IH]; cbn; [reflexivity|].
  rewrite (H y) by (left; reflexivity).
  apply IH. intros z Hz. apply H. right. exact Hz.
Qed.

Lemma findKey_first (keys before after : list string) (k : string)
  (props : gmap string jsval) :
  keys = before ++ k :: after ->
  (forall k', In k' before -> prop props k' = JUndefined) ->
  prop props k <> JUndefined ->
  findKey keys props = Some k.
Proof.
  intros -> Hb Hk. unfold findKey. apply find_first.
  - intros y Hy. rewrite (Hb y Hy). reflexivity.
  - destruct (prop props k); try reflexivity. congruence.
Qed.

Lemma findKey_none (keys : list string) (props : gmap string jsval) :
  (forall k, In k keys -> prop props k = JUndefined) ->
  findKey keys props = None.
Proof.
  intros H. unfold findKey. apply find_none.
  intros y Hy. rewrite (H y Hy). reflexivity.
Qed.

Lemma keyed_nonempty (k : string) : k <> ""%string -> keyed (Some k) = Some k.
Proof. destruct k; [congruence|reflexivity]. Qed.

Lemma trailIdentity_normal (props : gmap string jsval) :
  stringOrFalsy (prop props "TRAIL_NAME") = true ->
  exists identity, trailIdentity "oregon-trails" props = Normal identity.
Proof.
  intros S. unfold trailIdentity. cbn [str_eqb String.eqb Ascii.eqb Bool.eqb].
  destruct (truthy (prop props "TRAIL_NAME")) eqn:T; cbn [JS.bind].
  - destruct (prop props "TRAIL_NAME"); cbn in S, T; try discriminate;
      try (rewrite T in S; discriminate).
    cbn [includes JS.bind].
    destruct (str_includes s (lit "PACIFIC CREST")); eauto.
  - eauto.
Qed.

Lemma trailIdentity_throws_iff (sourceId : string) (props : gmap string jsval) :
  trailIdentity sourceId props = Throw TypeError <->
  sourceId = "oregon-trails"%string /\
  stringOrFalsy (prop props "TRAIL_NAME") = false.
Proof.
  split.
  - intros E. unfold trailIdentity, str_eqb in E.
    destruct (String.eqb_spec sourceId "pct"); [discriminate|].
    destruct (String.eqb_spec sourceId "oregon-trails") as [->|]; [|discriminate].
    split; [reflexivity|].
    destruct (stringOrFalsy (prop props "TRAIL_NAME")) eqn:S; [|reflexivity].
    destruct (trailIdentity_normal props S) as [i Hi].
    unfold trailIdentity in Hi.
    cbn [str_eqb String.eqb Ascii.eqb Bool.eqb] in Hi. congruence.
  - intros [-> S]. apply stringOrFalsy_false in S. destruct S as [T Hs].
    apply trailIdentity_throws; [exact T|].
    destruct (prop props "TRAIL_NAME"); cbn in T |- *; try discriminate;
      try (rewrite T; reflexivity).
    exfalso. exact (Hs _ eq_refl).
Qed.

Section PopupsMore.

Context {Geometry : Type}.
Variable turf_area : Geometry -> completion float.
Variable turf_length : Geometry -> completion float.
Variables NAME_KEYS ID_KEYS : list string.

Lemma lengthTxt_normal (sourceId : string) (props : gmap string jsval)
  (g : Geometry) :
  exists txt, lengthTxt turf_length sourceId props g = Normal txt.
Proof.
  unfold lengthTxt.
  destruct (str_eqb sourceId "oregon-trails" && truthy (prop props "GIS_MILES")) eqn:E.
  - apply andb_true_iff in E. destruct E as [_ T].
    destruct (prop props "GIS_MILES"); cbn in T; try discriminate; cbn; eauto.
  - destruct (str_eqb sourceId "pct"); eauto.
Qed.

(** X10.  The roadless-area popup takes its name from the first key of
    [NAME_KEYS] that the feature has, even when the value under it is
    empty, zero or [null], and shows "Unnamed area" when the feature has
    none of the keys.  The identifier is found in the same way among
    [ID_KEYS], independently of the name, and is absent when the feature
    has none of them. *)
Theorem area_popup_name_and_id (e : MapLayerMouseEvent Geometry) (w : World)
  (f : Feature Geometry) (rest : list (Feature Geometry)) :
  features e = Some (f :: rest) ->
  exists name uid,
    popup (fst (onClick turf_area NAME_KEYS ID_KEYS e w)) =
    Some (layer_lngLat e, AreaPopup name uid (acresTxt turf_area (geometry f))) /\
    ((forall k, In k NAME_KEYS -> prop (propsOf f) k = JUndefined) ->
     name = lit "Unnamed area") /\
    (forall before k after,
       NAME_KEYS = before ++ k :: after ->
       (forall k', In k' before -> prop (propsOf f) k' = JUndefined) ->
       prop (propsOf f) k <> JUndefined -> k <> ""%string ->
       name = ToString (prop (propsOf f) k)) /\
    ((forall k, In k ID_KEYS -> prop (propsOf f) k = JUndefined) ->
     uid = None) /\
    (forall before k after,
       ID_KEYS = before ++ k :: after ->
       (forall k', In k' before -> prop (propsOf f) k' = JUndefined) ->
       prop (propsOf f) k <> JUndefined -> k <> ""%string ->
       uid = Some (ToString (prop (propsOf f) k))).
Proof.
  intros He. unfold onClick, firstFeature. rewrite He. cbn [fst showPopup popup].
  eexists _, _. split; [reflexivity|]. split; [|split; [|split]].
  - intros H. rewrite (findKey_none NAME_KEYS _ H). reflexivity.
  - intros before k after Hk Hb Hp Hne.
    rewrite (findKey_first NAME_KEYS before after k _ Hk Hb Hp).
    rewrite (keyed_nonempty k Hne). reflexivity.
  - intros H. rewrite (findKey_none ID_KEYS _ H). reflexivity.
  - intros before k after Hk Hb Hp Hne.
    rewrite (findKey_first ID_KEYS before after k _ Hk Hb Hp).
    rewrite (keyed_nonempty k Hne). reflexivity.
Qed.

(** X11.  The trail click handler throws exactly when the feature comes
    from the [oregon-trails] source with a [TRAIL_NAME] that is truthy and
    not a string, and it then leaves the world untouched.  In every other
    case it opens a trail popup at the click position.  The length text
    itself is always computed without throwing. *)
Theorem trail_click_outcome (e : MapLayerMouseEvent Geometry) (w : World)
  (f : Feature Geometry) (rest : list (Feature Geometry)) :
  features e = Some (f :: rest) ->
  let outcome := onTrailClick turf_length e w in
  let unreadable :=
    source f = "oregon-trails"%string /\
    stringOrFalsy (prop (propsOf f) "TRAIL_NAME") = false in
  (unreadable -> outcome = (w, Throw TypeError)) /\
  (~ unreadable ->
   snd outcome = Normal tt /\
   exists trailName trailInfo txt,
     popup (fst outcome) =
     Some (layer_lngLat e, TrailPopup trailName trailInfo txt)) /\
  (exists txt,
     lengthTxt turf_length (source f) (propsOf f) (geometry f) = Normal txt).
Proof.
  intros He outcome unreadable. subst outcome.
  unfold onTrailClick, firstFeature, seq, lift, showPopup. rewrite He.
  destruct (lengthTxt_normal (source f) (propsOf f) (geometry f)) as [txt Ht].
  split; [|split; [|eauto]].
  - intros U. apply trailIdentity_throws_iff in U. rewrite U. reflexivity.
  - intros U. destruct (trailIdentity (source f) (propsOf f)) as [i|[]] eqn:Hi.
    + rewrite Ht. cbn. split; [reflexivity|]. eauto.
    + exfalso. apply U. apply trailIdentity_throws_iff. exact Hi.
Qed.

End PopupsMore.

Lemma decimal_nonempty (n : Z) : decimal n <> [].
Proof.
  unfold decimal, NilZero.string_of_uint.
  destruct (N.to_uint (Z.to_N n)); cbn; discriminate.
Qed.

Lemma group3_nonempty (r : jsstring) : r <> [] -> group3 r <> [].
Proof. destruct r as [|a [|b [|c [|d r]]]]; cbn; congruence. Qed.

Lemma rev_nonempty {A : Type} (l : list A) : l <> [] -> rev l <> [].
Proof.
  destruct l as [|x l]; [congruence|]. intros _ E.
  apply (f_equal (@List.length A)) in E. rewrite length_rev in E. discriminate.
Qed.

Lemma num_toLocaleString_nonempty (k : nat) (x : float) :
  num_toLocaleString k x <> [].
Proof.
  unfold num_toLocaleString.
  destruct (Prim2SF x) as [[|]|[|]| |b m e]; try discriminate.
  destruct (shortest m e) as [c p].
  cbv zeta. intros E. apply app_eq_nil in E. destruct E as [_ E].
  apply app_eq_nil in E. destruct E as [E _]. revert E.
  apply rev_nonempty, group3_nonempty, rev_nonempty, decimal_nonempty.
Qed.

Lemma acresOrDash_nonempty (v : jsval) (k : nat) (txt : jsstring) :
  acresOrDash v k = Normal txt -> txt <> [].
Proof.
  unfold acresOrDash. destruct (truthy v) eqn:T.
  - destruct v; cbn in T |- *; try discriminate.
    + destruct b; [|discriminate]. intros E. injection E as <-. discriminate.
    + intros E. injection E as <-. apply num_toLocaleString_nonempty.
    + intros E. injection E as <-. destruct s; [discriminate|congruence].
  - intros E. injection E as <-. discriminate.
Qed.

(** X12.  The district popup never shows an empty field: when it is built
    ([DISTRICT] and [LISTING_NA] strings or falsy), its district number, its
    label, its total acres and its roadless acres are all non-empty, and
    the label holds a district part of at least two code units. *)
Theorem district_popup_fields_nonempty (props : gmap string jsval) :
  stringOrFalsy (prop props "DISTRICT") = true ->
  stringOrFalsy (prop props "LISTING_NA") = true ->
  exists districtNumber name party padded totalAcres roadlessAcres,
    districtPopup props =
    Normal (DistrictPopup districtNumber
              (lit "Rep. " ++ name ++ lit " (" ++ party ++ endash ++ lit "OR-"
                 ++ padded ++ lit ")")
              totalAcres roadlessAcres) /\
    districtNumber <> [] /\ totalAcres <> [] /\ roadlessAcres <> [] /\
    name <> [] /\ (2 <= List.length padded)%nat.
Proof.
  intros Hd Hn.
  destruct (or_else_string _ (lit "Unknown") Hd) as [d Ed].
  destruct (or_else_string _ (lit "Unknown Representative") Hn) as [n En].
  destruct (districtPopup_strings props n d En Ed) as (t & r & Ht & Hr & E).
  eexists d, _, _, _, t, r. split; [exact E|].
  assert (Nd : d <> []).
  { apply (or_else_nonempty (prop props "DISTRICT") (lit "Unknown"));
      [discriminate|exact Ed]. }
  assert (Nn : n <> []).
  { apply (or_else_nonempty (prop props "LISTING_NA") (lit "Unknown Representative"));
      [discriminate|exact En]. }
  split; [exact Nd|]. split; [exact (acresOrDash_nonempty _ _ _ Ht)|].
  split; [exact (acresOrDash_nonempty _ _ _ Hr)|]. split.
  - unfold reorderName.
    destruct (str_split n (lit ", ")) as [|a [|b [|c l]]]; try exact Nn.
    intros E'. apply app_eq_nil in E'. destruct E' as [_ E'].
    apply app_eq_nil in E'. destruct E' as [E' _]. discriminate.
  - unfold str_padStart.
    destruct (Nat.leb_spec 2 (List.length d)) as [H|H]; [exact H|].
    cbn. rewrite length_app. destruct d as [|c [|c' d']]; cbn in *;
      try lia; congruence.
Qed.

(** * Sources and layers *)

Section Sources.

Import MapStyle.

Variable config : Config.

Lemma ensureSource_done (id : string) (spec : SourceSpec) (s : Style) :
  ensureSource id spec s =
  Done {| style_sources := style_sources s ∪ {[ id := spec ]};
          style_layers := style_layers s |}.
Proof.
  unfold ensureSource, addSource, getSource.
  destruct (style_sources s !! id) as [x|] eqn:E.
  - destruct s as [src ls]. cbn in *. f_equal. f_equal.
    apply map_eq. intros k. rewrite lookup_union.
    destruct (decide (id = k)) as [<-|Hne].
    + rewrite E, lookup_singleton_eq. reflexivity.
    + rewrite lookup_singleton_ne by exact Hne.
      destruct (src !! k); reflexivity.
  - f_equal. f_equal.
    apply map_eq. intros k. rewrite lookup_union.
    destruct (decide (id = k)) as [<-|Hne].
    + rewrite lookup_insert_eq, E, lookup_singleton_eq. reflexivity.
    + rewrite lookup_insert_ne, lookup_singleton_ne by exact Hne.
      destruct (style_sources s !! k); reflexivity.
Qed.

Lemma addMapSources_done (s : Style) :
  addMapSources config s =
  Done {| style_sources := style_sources s ∪ defaultSources config;
          style_layers := style_layers s |}.
Proof.
  unfold addMapSources. rewrite !ensureSource_done. cbn [andThen].
  rewrite !ensureSource_done. cbn [andThen style_sources style_layers].
  rewrite !ensureSource_done. cbn [andThen style_sources style_layers].
  rewrite !ensureSource_done. cbn [style_sources style_layers].
  f_equal. f_equal. apply map_eq. intros k.
  unfold defaultSources. cbn [list_to_map foldr uncurry fst snd].
  rewrite !lookup_union, !lookup_insert, lookup_empty.
  repeat case_decide; subst; rewrite ?lookup_singleton_eq;
    rewrite ?lookup_singleton_ne by congruence;
    match goal with
    | |- context [style_sources s !! ?x] => destruct (style_sources s !! x)
    end; reflexivity.
Qed.

Lemma defaultSources_has (l : LayerSpec) :
  In l (addedLayers config) -> is_Some (defaultSources config !! layer_source l).
Proof.
  intros H. cbn in H.
  destruct H as [<-|[<-|[<-|[<-|[<-|[<-|[]]]]]]]; eexists; reflexivity.
Qed.

(** X13.  [addMapSources] never throws and never replaces a source: it
    leaves every source of the style as it is, adds each of its four
    sources where the id is free, touches no other id and no layer, and a
    second call changes nothing. *)
Theorem addMapSources_adds_missing_only (s : Style) :
  exists s',
    addMapSources config s = Done s' /\
    style_layers s' = style_layers s /\
    (forall id spec, getSource s id = Some spec -> getSource s' id = Some spec) /\
    (forall id, getSource s id = None ->
       getSource s' id = defaultSources config !! id) /\
    (forall id,
       In id ["roadless-src"; "pct"; "oregon-trails"; "congressional-districts"]%string ->
       is_Some (getSource s' id)) /\
    addMapSources config s' = Done s'.
Proof.
  eexists. split; [apply addMapSources_done|]. unfold getSource.
  cbn [style_sources style_layers].
  split; [reflexivity|]. split; [|split; [|split]].
  - intros id spec H. rewrite lookup_union, H.
    destruct (defaultSources config !! id); reflexivity.
  - intros id H. rewrite lookup_union, H.
    destruct (defaultSources config !! id); reflexivity.
  - intros id Hid. rewrite lookup_union.
    assert (D : is_Some (defaultSources config !! id)).
    { cbn in Hid. destruct Hid as [<-|[<-|[<-|[<-|[]]]]]; eexists; reflexivity. }
    destruct D as [d ->]. destruct (style_sources s !! id); eexists; reflexivity.
  - rewrite addMapSources_done. cbn [style_sources style_layers].
    f_equal. f_equal. apply map_eq. intros k. rewrite !lookup_union.
    destruct (style_sources s !! k), (defaultSources config !! k);
      reflexivity.
Qed.

End Sources.

Lemma find_app {A : Type} (p : A -> bool) (a b : list A) :
  List.find p (a ++ b) =
  match List.find p a with
  | Some x => Some x
  | None => List.find p b
  end.
Proof.
  induction a as [|x a IH]; cbn; [reflexivity|].
  destruct (p x); [reflexivity|exact IH].
Qed.

Section Layers.

Import MapStyle.

Implicit Types (s : Style) (l x : LayerSpec) (o : list LayerSpec).

Lemma getLayer_none s id :
  getLayer s id = None <-> forall x, In x (style_layers s) -> layer_id x <> id.
Proof.
  unfold getLayer. split.
  - intros H x Hx E. apply (List.find_none _ _ H) in Hx. cbn in Hx.
    rewrite E, String.eqb_refl in Hx. discriminate.
  - intros H. apply find_none. intros y Hy. apply String.eqb_neq. exact (H y Hy).
Qed.

Lemma hasLayer_In s id :
  hasLayer s id <-> exists x, In x (style_layers s) /\ layer_id x = id.
Proof.
  unfold hasLayer, getLayer. split.
  - intros [l H]. apply List.find_some in H. destruct H as [Hin E].
    exists l. split; [exact Hin|]. apply String.eqb_eq. exact E.
  - intros (x & Hx & E).
    destruct (List.find _ (style_layers s)) as [l|] eqn:F; [eauto|].
    apply (List.find_none _ _ F) in Hx. cbn in Hx.
    rewrite E, String.eqb_refl in Hx. discriminate.
Qed.

Lemma insertBefore_at (b : string) l x (pre post : list LayerSpec) :
  (forall y, In y pre -> layer_id y <> b) -> layer_id x = b ->
  insertBefore b l (pre ++ x :: post) = Some (pre ++ l :: x :: post).
Proof.
  intros Hp Hx. induction pre as [|y pre IH]; cbn.
  - rewrite Hx, String.eqb_refl. reflexivity.
  - destruct (String.eqb_spec (layer_id y) b) as [E|_].
    + exfalso. exact (Hp y (or_introl eq_refl) E).
    + rewrite IH; [reflexivity|]. intros z Hz. apply Hp. right. exact Hz.
Qed.

(** What [insertBefore] returns: the list with the layer put in front of
    the first layer of the given id. *)
Lemma insertBefore_Some (b : string) l o o' :
  insertBefore b l o = Some o' ->
  exists pre x post,
    o = pre ++ x :: post /\ layer_id x = b /\
    (forall y, In y pre -> layer_id y <> b) /\ o' = pre ++ l :: x :: post.
Proof.
  revert o'. induction o as [|y o IH]; intros o'; cbn; [discriminate|].
  destruct (String.eqb_spec (layer_id y) b) as [E|Hne].
  - intros H. injection H as <-. exists [], y, o. cbn. repeat split; tauto.
  - destruct (insertBefore b l o) as [r|]; [|discriminate].
    intros H. injection H as <-.
    destruct (IH r eq_refl) as (pre & x & post & -> & Hx & Hp & ->).
    exists (y :: pre), x, post. cbn. repeat split; try assumption.
    intros z [<-|Hz]; [exact Hne|exact (Hp z Hz)].
Qed.

Lemma insertBefore_found (b : string) l o :
  (exists x, In x o /\ layer_id x = b) ->
  exists o', insertBefore b l o = Some o'.
Proof.
  intros (x & Hx & E). induction o as [|y o IH]; [destruct Hx|]. cbn.
  destruct (String.eqb_spec (layer_id y) b) as [_|Hne]; [eauto|].
  destruct Hx as [->|Hx]; [congruence|].
  destruct (IH Hx) as [o' ->]. eauto.
Qed.

(** [addLayer] either leaves the style alone or puts the layer somewhere
    into the list of layers. *)
Lemma addLayer_cases l (before : option string) s :
  addLayer l before s = s \/
  exists pre post,
    style_layers s = pre ++ post /\
    addLayer l before s = withLayers s (pre ++ l :: post).
Proof.
  unfold addLayer.
  destruct (getLayer s (layer_id l)); [left; reflexivity|].
  destruct (getSource s (layer_source l)); [|left; reflexivity].
  assert (A : withLayers s (style_layers s ++ [l]) = s \/
              exists pre post : list LayerSpec,
                style_layers s = pre ++ post /\
                withLayers s (style_layers s ++ [l]) = withLayers s (pre ++ l :: post)).
  { right. exists (style_layers s), [].
    rewrite app_nil_r. split; reflexivity. }
  destruct before as [[|c b]|]; try exact A.
  destruct (insertBefore _ l (style_layers s)) as [o'|] eqn:I; [|left; reflexivity].
  right.
  apply insertBefore_Some in I. destruct I as (pre & x & post & Ho & _ & _ & ->).
  exists pre, (x :: post). split; [exact Ho|reflexivity].
Qed.

Lemma ensureLayer_cases l (before : option string) s :
  ensureLayer l before s = s \/
  (getLayer s (layer_id l) = None /\
   exists pre post,
     style_layers s = pre ++ post /\
     ensureLayer l before s = withLayers s (pre ++ l :: post)).
Proof.
  unfold ensureLayer. destruct (getLayer s (layer_id l)) eqn:G; [left; reflexivity|].
  destruct (addLayer_cases l before s) as [H|H]; [left; exact H|].
  right. split; [reflexivity|exact H].
Qed.

(** One guarded [addLayer] keeps the sources, keeps every layer the style
    has under the id it has, keeps their order, and keeps ids unique. *)
Lemma ensureLayer_keeps l (before : option string) s :
  let s' := ensureLayer l before s in
  style_sources s' = style_sources s /\
  (forall id x, getLayer s id = Some x -> getLayer s' id = Some x) /\
  style_layers s `sublist_of` style_layers s' /\
  (forall x, In x (style_layers s') -> In x (style_layers s) \/ x = l) /\
  (NoDup (List.map layer_id (style_layers s)) ->
   NoDup (List.map layer_id (style_layers s'))).
Proof.
  cbv zeta.
  destruct (ensureLayer_cases l before s) as [->|(G & pre & post & Ho & ->)].
  - repeat split; auto.
  - cbn [withLayers style_sources style_layers]. rewrite Ho.
    rewrite getLayer_none in G. rewrite Ho in G.
    split; [reflexivity|]. split; [|split; [|split]].
    + intros id x. unfold getLayer. cbn [style_layers withLayers]. rewrite Ho.
      rewrite !find_app. cbn [List.find].
      destruct (List.find _ pre); [intros F; exact F|].
      destruct (String.eqb_spec (layer_id l) id) as [E|_]; [|intros F; exact F].
      intros F. apply List.find_some in F. destruct F as [Hin F].
      apply String.eqb_eq in F. exfalso.
      apply (G x); [apply in_or_app; right; exact Hin|congruence].
    + apply sublist_app; [reflexivity|]. apply sublist_cons. reflexivity.
    + intros x Hx. apply in_app_or in Hx. destruct Hx as [Hx|[<-|Hx]];
        [left; apply in_or_app; tauto|right; reflexivity|
         left; apply in_or_app; tauto].
    + rewrite !map_app. cbn [List.map]. intros N.
      apply NoDup_app in N. destruct N as (N1 & N2 & N3).
      apply NoDup_app. split; [exact N1|]. split.
      * intros i Hi [->|Hj]%elem_of_cons.
        -- apply list_elem_of_In, in_map_iff in Hi. destruct Hi as (y & E & Hy).
           apply (G y); [apply in_or_app; tauto|exact E].
        -- exact (N2 i Hi Hj).
      * apply NoDup_cons. split; [|exact N3].
        intros Hi. apply list_elem_of_In, in_map_iff in Hi.
        destruct Hi as (y & E & Hy).
        apply (G y); [apply in_or_app; tauto|exact E].
Qed.


Lemma extends_refl s (added : list LayerSpec) : extends s s added.
Proof. unfold extends. repeat split; auto. Qed.

Lemma extends_step s s' l (before : option string) (added : list LayerSpec) :
  extends s s' added -> extends s (ensureLayer l before s') (added ++ [l]).
Proof.
  intros (E1 & E2 & E3 & E4 & E5).
  destruct (ensureLayer_keeps l before s') as (K1 & K2 & K3 & K4 & K5).
  unfold extends. split; [congruence|]. split; [|split; [|split]].
  - intros id x H. apply K2, E2, H.
  - etransitivity; [exact E3|exact K3].
  - intros x Hx. destruct (K4 x Hx) as [H| ->].
    + destruct (E4 x H) as [H'|H']; [left; exact H'|].
      right. apply in_or_app. left. exact H'.
    + right. apply in_or_app. right. left. reflexivity.
  - intros N. apply K5, E5, N.
Qed.

Lemma ensureLayer_has l (before : option string) s :
  is_Some (getSource s (layer_source l)) ->
  (forall b, before = Some b -> b <> ""%string -> hasLayer s b) ->
  hasLayer (ensureLayer l before s) (layer_id l).
Proof.
  intros [src Hs] Hb. unfold ensureLayer.
  destruct (getLayer s (layer_id l)) as [x|] eqn:G; [exists x; exact G|].
  unfold addLayer. rewrite G, Hs.
  assert (A : hasLayer (withLayers s (style_layers s ++ [l])) (layer_id l)).
  { apply hasLayer_In. exists l. split; [|reflexivity].
    cbn. apply in_or_app. right. left. reflexivity. }
  destruct before as [[|c b]|]; try exact A.
  assert (H : hasLayer s (String c b)) by (apply Hb; [reflexivity|discriminate]).
  apply hasLayer_In in H.
  destruct (insertBefore_found (String c b) l (style_layers s) H) as [o' I].
  rewrite I. apply insertBefore_Some in I.
  destruct I as (pre & x & post & _ & _ & _ & ->).
  apply hasLayer_In. exists l. split; [|reflexivity].
  cbn. apply in_or_app. right. left. reflexivity.
Qed.

Lemma ensureLayer_still_has l (before : option string) s (id : string) :
  hasLayer s id -> hasLayer (ensureLayer l before s) id.
Proof.
  intros [x H]. exists x.
  exact (proj1 (proj2 (ensureLayer_keeps l before s)) id x H).
Qed.

Lemma ensureLayer_sources l (before : option string) s :
  style_sources (ensureLayer l before s) = style_sources s.
Proof. exact (proj1 (ensureLayer_keeps l before s)). Qed.

Lemma firstSymbol_has s (b : string) : firstSymbol s = Some b -> hasLayer s b.
Proof.
  unfold firstSymbol.
  destruct (List.find _ (style_layers s)) as [x|] eqn:F; [|discriminate].
  intros E. injection E as <-. apply List.find_some in F.
  apply hasLayer_In. exists x. split; [tauto|reflexivity].
Qed.

Lemma addMapLayers_extends (config : Config) s :
  extends s (addMapLayers config s) (addedLayers config).
Proof.
  unfold addMapLayers, addedLayers. cbv zeta.
  apply (extends_step s _ _ _
           [roadlessFill config; oregonTrailsLine config; roadlessLine config;
            pctLine config; districtsLine config]).
  apply (extends_step s _ _ _
           [roadlessFill config; oregonTrailsLine config; roadlessLine config;
            pctLine config]).
  apply (extends_step s _ _ _
           [roadlessFill config; oregonTrailsLine config; roadlessLine config]).
  apply (extends_step s _ _ _ [roadlessFill config; oregonTrailsLine config]).
  apply (extends_step s _ _ _ [roadlessFill config]).
  apply (extends_step s _ _ _ []).
  apply extends_refl.
Qed.

Lemma ensureLayer_noop l (before : option string) s :
  hasLayer s (layer_id l) -> ensureLayer l before s = s.
Proof. intros [x H]. unfold ensureLayer. rewrite H. reflexivity. Qed.

Lemma ensureLayer_append l (src : gmap string SourceSpec) o :
  (forall y, In y o -> layer_id y <> layer_id l) ->
  is_Some (src !! layer_source l) ->
  ensureLayer l None {| style_sources := src; style_layers := o |} =
  {| style_sources := src; style_layers := o ++ [l] |}.
Proof.
  intros Hf [x Hs]. unfold ensureLayer, addLayer, getSource.
  rewrite (proj2 (getLayer_none {| style_sources := src; style_layers := o |} _) Hf).
  cbn [style_sources style_layers]. rewrite Hs.
  reflexivity.
Qed.

Lemma ensureLayer_insert l (b : string) (src : gmap string SourceSpec)
  (pre : list LayerSpec) x (post : list LayerSpec) :
  (forall y, In y (pre ++ x :: post) -> layer_id y <> layer_id l) ->
  is_Some (src !! layer_source l) ->
  b <> ""%string -> layer_id x = b ->
  (forall y, In y pre -> layer_id y <> b) ->
  ensureLayer l (Some b) {| style_sources := src; style_layers := pre ++ x :: post |} =
  {| style_sources := src; style_layers := pre ++ l :: x :: post |}.
Proof.
  intros Hf [y Hs] Hb Hx Hp. unfold ensureLayer, addLayer, getSource.
  rewrite (proj2 (getLayer_none
                    {| style_sources := src; style_layers := pre ++ x :: post |} _) Hf).
  cbn [style_sources style_layers].
  rewrite Hs. destruct b as [|c b]; [contradiction|].
  rewrite (insertBefore_at (String c b) l x pre post Hp Hx). reflexivity.
Qed.

Lemma getLayer_In s id x : getLayer s id = Some x -> In x (style_layers s) /\ layer_id x = id.
Proof.
  unfold getLayer. intros H. apply List.find_some in H.
  destruct H as [Hin E]. split; [exact Hin|]. apply String.eqb_eq. exact E.
Qed.

Section WithConfig.

Variable config : Config.

(** X14.  [addMapLayers] never removes, replaces or reorders a layer: the
    sources stay, every layer of the style is still found under its id, the
    layers the style had keep their order, every other layer afterwards is
    one of the six of the function, and layer ids stay unique. *)
Theorem addMapLayers_keeps_existing (s : Style) :
  let s' := addMapLayers config s in
  style_sources s' = style_sources s /\
  (forall id x, getLayer s id = Some x -> getLayer s' id = Some x) /\
  style_layers s `sublist_of` style_layers s' /\
  (forall x, In x (style_layers s') ->
     In x (style_layers s) \/ In x (addedLayers config)) /\
  (NoDup (List.map layer_id (style_layers s)) ->
   NoDup (List.map layer_id (style_layers s'))).
Proof.
  cbv zeta. apply addMapLayers_extends.
Qed.

Lemma addMapLayers_has (s : Style) :
  (forall l, In l (addedLayers config) -> is_Some (getSource s (layer_source l))) ->
  forall l, In l (addedLayers config) -> hasLayer (addMapLayers config s) (layer_id l).
Proof.
  intros Src. unfold addMapLayers. cbv zeta.
  set (before := firstSymbol s).
  assert (B : forall m, (forall id, hasLayer s id -> hasLayer m id) ->
                forall b, before = Some b -> b <> ""%string -> hasLayer m b).
  { intros m Hm b Hb _. apply Hm. apply firstSymbol_has. exact Hb. }
  set (m1 := ensureLayer (roadlessFill config) before s).
  set (m2 := ensureLayer (oregonTrailsLine config) (Some "roadless-fill"%string) m1).
  set (m3 := ensureLayer (roadlessLine config) before m2).
  set (m4 := ensureLayer (pctLine config) before m3).
  set (m5 := ensureLayer (districtsLine config) None m4).
  set (m6 := ensureLayer (districtsFill config)
               (Some "congressional-districts-line"%string) m5).
  assert (S1 : style_sources m1 = style_sources s) by apply ensureLayer_sources.
  assert (S2 : style_sources m2 = style_sources s)
    by (unfold m2; rewrite ensureLayer_sources; exact S1).
  assert (S3 : style_sources m3 = style_sources s)
    by (unfold m3; rewrite ensureLayer_sources; exact S2).
  assert (S4 : style_sources m4 = style_sources s)
    by (unfold m4; rewrite ensureLayer_sources; exact S3).
  assert (S5 : style_sources m5 = style_sources s)
    by (unfold m5; rewrite ensureLayer_sources; exact S4).
  assert (K1 : forall id, hasLayer s id -> hasLayer m1 id)
    by (intros id H; apply ensureLayer_still_has, H).
  assert (K2 : forall id, hasLayer s id -> hasLayer m2 id)
    by (intros id H; apply ensureLayer_still_has, K1, H).
  assert (K3 : forall id, hasLayer s id -> hasLayer m3 id)
    by (intros id H; apply ensureLayer_still_has, K2, H).
  assert (H1 : hasLayer m1 "roadless-fill").
  { apply (ensureLayer_has (roadlessFill config)).
    - apply Src. cbn. tauto.
    - apply B. auto. }
  assert (H2 : hasLayer m2 "oregon-trails-line").
  { apply (ensureLayer_has (oregonTrailsLine config)).
    - unfold getSource. rewrite S1. apply Src. cbn. tauto.
    - intros b Hb _. injection Hb as <-. exact H1. }
  assert (H3 : hasLayer m3 "roadless-line").
  { apply (ensureLayer_has (roadlessLine config)).
    - unfold getSource. rewrite S2. apply Src. cbn. tauto.
    - apply B. exact K2. }
  assert (H4 : hasLayer m4 "pct-line").
  { apply (ensureLayer_has (pctLine config)).
    - unfold getSource. rewrite S3. apply Src. cbn. tauto.
    - apply B. exact K3. }
  assert (H5 : hasLayer m5 "congressional-districts-line").
  { apply (ensureLayer_has (districtsLine config)).
    - unfold getSource. rewrite S4. apply Src. cbn. tauto.
    - intros b Hb. discriminate. }
  assert (H6 : hasLayer m6 "congressional-districts-fill").
  { apply (ensureLayer_has (districtsFill config)).
    - unfold getSource. rewrite S5. apply Src. cbn. tauto.
    - intros b Hb _. injection Hb as <-. exact H5. }
  intros l Hl. cbn in Hl.
  destruct Hl as [<-|[<-|[<-|[<-|[<-|[<-|[]]]]]]]; cbn [layer_id roadlessFill
    oregonTrailsLine roadlessLine pctLine districtsLine districtsFill].
  - do 5 apply ensureLayer_still_has. exact H1.
  - do 4 apply ensureLayer_still_has. exact H2.
  - do 3 apply ensureLayer_still_has. exact H3.
  - do 2 apply ensureLayer_still_has. exact H4.
  - do 1 apply ensureLayer_still_has. exact H5.
  - exact H6.
Qed.

Lemma addMapLayers_fixed (s : Style) :
  (forall l, In l (addedLayers config) -> hasLayer s (layer_id l)) ->
  addMapLayers config s = s.
Proof.
  intros H. unfold addMapLayers. cbv zeta.
  rewrite (ensureLayer_noop (roadlessFill config)) by (apply H; cbn; tauto).
  rewrite (ensureLayer_noop (oregonTrailsLine config)) by (apply H; cbn; tauto).
  rewrite (ensureLayer_noop (roadlessLine config)) by (apply H; cbn; tauto).
  rewrite (ensureLayer_noop (pctLine config)) by (apply H; cbn; tauto).
  rewrite (ensureLayer_noop (districtsLine config)) by (apply H; cbn; tauto).
  rewrite (ensureLayer_noop (districtsFill config)) by (apply H; cbn; tauto).
  reflexivity.
Qed.

Lemma addSourcesAndLayers_done (s : Style) :
  addSourcesAndLayers config s =
  Done (addMapLayers config
          {| style_sources := style_sources s ∪ defaultSources config;
             style_layers := style_layers s |}).
Proof.
  unfold addSourcesAndLayers. rewrite addMapSources_done. reflexivity.
Qed.

Lemma addSourcesAndLayers_has (s s' : Style) :
  addSourcesAndLayers config s = Done s' ->
  forall l, In l (addedLayers config) ->
    hasLayer s' (layer_id l) /\ is_Some (getSource s' (layer_source l)).
Proof.
  rewrite addSourcesAndLayers_done. intros E. injection E as <-.
  set (s1 := {| style_sources := style_sources s ∪ defaultSources config;
                style_layers := style_layers s |}).
  assert (Src : forall l, In l (addedLayers config) ->
                  is_Some (getSource s1 (layer_source l))).
  { intros l Hl. unfold getSource, s1. cbn [style_sources].
    rewrite lookup_union.
    destruct (defaultSources_has config l Hl) as [d ->].
    destruct (style_sources s !! layer_source l); eexists; reflexivity. }
  intros l Hl. split; [apply addMapLayers_has; assumption|].
  unfold getSource.
  rewrite (proj1 (addMapLayers_extends config s1)). apply Src, Hl.
Qed.

(** X15.  The set-up of the map, [addMapSources] then [addMapLayers],
    never throws on any style; afterwards the style has a layer under each
    of the six ids and the source of each, whatever it had before; and a
    second set-up changes nothing. *)
Theorem setup_ensures_and_is_idempotent (s : Style) :
  exists s',
    addSourcesAndLayers config s = Done s' /\
    (forall l, In l (addedLayers config) ->
       hasLayer s' (layer_id l) /\ is_Some (getSource s' (layer_source l))) /\
    addSourcesAndLayers config s' = Done s'.
Proof.
  eexists. split; [apply addSourcesAndLayers_done|].
  pose proof (addSourcesAndLayers_has s _ (addSourcesAndLayers_done s)) as Has.
  split; [exact Has|].
  set (s1 := {| style_sources := style_sources s ∪ defaultSources config;
                style_layers := style_layers s |}) in *.
  rewrite addSourcesAndLayers_done. f_equal.
  pose proof (proj1 (addMapLayers_extends config s1)) as Hsrc.
  destruct (addMapLayers config s1) as [src ls] eqn:E.
  cbn [style_sources style_layers] in *.
  assert (Same : src ∪ defaultSources config = src).
  { rewrite Hsrc. unfold s1. cbn [style_sources].
    apply map_eq. intros k. rewrite !lookup_union.
    destruct (style_sources s !! k), (defaultSources config !! k); reflexivity. }
  rewrite Same. apply addMapLayers_fixed. intros l Hl. apply Has, Hl.
Qed.

(** X16.  The drawing order on a style that has none of the six layers:
    in front of the first symbol layer, from below, the Oregon trails,
    the roadless fill, the roadless outline and the Pacific Crest Trail;
    on top of everything the district fill and then the district outline.
    Without a symbol layer the first four go on top of the layers of the
    style. *)
Theorem addMapLayers_order_on_fresh_style (s : Style) (pre post : list LayerSpec) :
  style_layers s = pre ++ post ->
  (forall y, In y pre -> layer_type y <> "symbol"%string) ->
  match post with
  | [] => True
  | sym :: _ =>
      layer_type sym = "symbol"%string /\ layer_id sym <> ""%string /\
      (forall y, In y pre -> layer_id y <> layer_id sym)
  end ->
  (forall l, In l (addedLayers config) ->
     getLayer s (layer_id l) = None /\ is_Some (getSource s (layer_source l))) ->
  style_layers (addMapLayers config s) =
  pre ++ [ oregonTrailsLine config; roadlessFill config; roadlessLine config;
           pctLine config ]
      ++ post ++ [ districtsFill config; districtsLine config ].
Proof.
  intros Hs Hpre Hpost Hfresh.
  assert (Fr : forall y, In y pre \/ In y post ->
                forall l, In l (addedLayers config) -> layer_id y <> layer_id l).
  { intros y Hy l Hl. destruct (Hfresh l Hl) as [G _].
    rewrite getLayer_none in G. apply G. rewrite Hs. apply in_or_app. exact Hy. }
  assert (FS : firstSymbol s =
               match post with [] => None | sym :: _ => Some (layer_id sym) end).
  { unfold firstSymbol. rewrite Hs, find_app.
    rewrite (find_none _ pre).
    - destruct post as [|sym rest]; [reflexivity|]. cbn [List.find].
      destruct Hpost as [-> _]. reflexivity.
    - intros y Hy. apply String.eqb_neq. apply Hpre, Hy. }
  destruct s as [src ls]. cbn [style_layers] in Hs. subst ls.
  assert (Src : forall l, In l (addedLayers config) -> is_Some (src !! layer_source l))
    by (intros l Hl; apply Hfresh, Hl).
  clear Hfresh. unfold addMapLayers. cbv zeta. rewrite FS. clear FS.
  destruct post as [|sym rest].
  - rewrite app_nil_r in *. cbn [app].
    assert (E1 := ensureLayer_append (roadlessFill config) src pre).
    rewrite E1; clear E1;
      [|intros y Hy; apply Fr; [tauto|cbn; tauto]|apply Src; cbn; tauto].
    assert (E2 := ensureLayer_insert (oregonTrailsLine config) "roadless-fill"
                    src pre (roadlessFill config) []).
    rewrite E2; clear E2;
      [|intros y Hy; apply in_app_or in Hy; destruct Hy as [Hy|[<-|[]]];
          [apply Fr; [tauto|cbn; tauto]|discriminate]
       |apply Src; cbn; tauto|discriminate|reflexivity
       |intros y Hy; apply (Fr y (or_introl Hy) (roadlessFill config)); cbn; tauto].
    assert (E3 := ensureLayer_append (roadlessLine config) src
                    (pre ++ [oregonTrailsLine config; roadlessFill config])).
    rewrite E3; clear E3;
      [|intros y Hy; apply in_app_or in Hy; destruct Hy as [Hy|[<-|[<-|[]]]];
          [apply Fr; [tauto|cbn; tauto]|discriminate|discriminate]
       |apply Src; cbn; tauto].
    assert (E4 := ensureLayer_append (pctLine config) src
                    ((pre ++ [oregonTrailsLine config; roadlessFill config])
                       ++ [roadlessLine config])).
    rewrite E4; clear E4;
      [|intros y Hy; repeat (apply in_app_or in Hy; destruct Hy as [Hy|Hy]);
          [apply Fr; [tauto|cbn; tauto]| |];
          cbn in Hy; intuition (subst; discriminate)
       |apply Src; cbn; tauto].
    assert (E5 := ensureLayer_append (districtsLine config) src
                    (((pre ++ [oregonTrailsLine config; roadlessFill config])
                       ++ [roadlessLine config]) ++ [pctLine config])).
    rewrite E5; clear E5;
      [|intros y Hy; repeat (apply in_app_or in Hy; destruct Hy as [Hy|Hy]);
          [apply Fr; [tauto|cbn; tauto]| | |];
          cbn in Hy; intuition (subst; discriminate)
       |apply Src; cbn; tauto].
    assert (E6 := ensureLayer_insert (districtsFill config)
                    "congressional-districts-line" src
                    (((pre ++ [oregonTrailsLine config; roadlessFill config])
                       ++ [roadlessLine config]) ++ [pctLine config])
                    (districtsLine config) []).
    rewrite E6; clear E6;
      [|intros y Hy; repeat (apply in_app_or in Hy; destruct Hy as [Hy|Hy]);
          [apply Fr; [tauto|cbn; tauto]| | | |];
          cbn in Hy; intuition (subst; discriminate)
       |apply Src; cbn; tauto|discriminate|reflexivity
       |intros y Hy; repeat (apply in_app_or in Hy; destruct Hy as [Hy|Hy]);
          [apply (Fr y (or_introl Hy) (districtsLine config)); cbn; tauto| | |];
          cbn in Hy; intuition (subst; discriminate)].
    cbn [style_layers]. rewrite <- !app_assoc. reflexivity.
  - destruct Hpost as (_ & Hid & Hfirst).
    assert (Fsym : forall l, In l (addedLayers config) -> layer_id l <> layer_id sym).
    { intros l Hl E. apply (Fr sym (or_intror (or_introl eq_refl)) l Hl).
      symmetry. exact E. }
    assert (E1 := ensureLayer_insert (roadlessFill config) (layer_id sym)
                    src pre sym rest).
    rewrite E1; clear E1;
      [|intros y Hy; apply Fr; [apply in_app_or in Hy; tauto|cbn; tauto]
       |apply Src; cbn; tauto|exact Hid|reflexivity|exact Hfirst].
    assert (E2 := ensureLayer_insert (oregonTrailsLine config) "roadless-fill"
                    src pre (roadlessFill config) (sym :: rest)).
    rewrite E2; clear E2;
      [|intros y Hy; apply in_app_or in Hy; destruct Hy as [Hy|[<-|Hy]];
          [apply Fr; [tauto|cbn; tauto]|discriminate|apply Fr; [tauto|cbn; tauto]]
       |apply Src; cbn; tauto|discriminate|reflexivity
       |intros y Hy; apply (Fr y (or_introl Hy) (roadlessFill config)); cbn; tauto].
    assert (E3 := ensureLayer_insert (roadlessLine config) (layer_id sym) src
                    (pre ++ [oregonTrailsLine config; roadlessFill config])
                    sym rest).
    rewrite <- !app_assoc in E3. cbn [app] in E3.
    rewrite E3; clear E3;
      [|intros y Hy; apply in_app_or in Hy; destruct Hy as [Hy|[<-|[<-|Hy]]];
          [apply Fr; [tauto|cbn; tauto]|discriminate|discriminate
          |apply Fr; [tauto|cbn; tauto]]
       |apply Src; cbn; tauto|exact Hid|reflexivity
       |intros y Hy; apply in_app_or in Hy; destruct Hy as [Hy|[<-|[<-|[]]]];
          [apply Hfirst, Hy|apply Fsym; cbn; tauto|apply Fsym; cbn; tauto]].
    assert (E4 := ensureLayer_insert (pctLine config) (layer_id sym) src
                    (pre ++ [oregonTrailsLine config; roadlessFill config;
                             roadlessLine config])
                    sym rest).
    rewrite <- !app_assoc in E4. cbn [app] in E4.
    rewrite E4; clear E4;
      [|intros y Hy; apply in_app_or in Hy; destruct Hy as [Hy|[<-|[<-|[<-|Hy]]]];
          [apply Fr; [tauto|cbn; tauto]|discriminate|discriminate|discriminate
          |apply Fr; [tauto|cbn; tauto]]
       |apply Src; cbn; tauto|exact Hid|reflexivity
       |intros y Hy; apply in_app_or in Hy; destruct Hy as [Hy|[<-|[<-|[<-|[]]]]];
          [apply Hfirst, Hy|apply Fsym; cbn; tauto|apply Fsym; cbn; tauto
          |apply Fsym; cbn; tauto]].
    assert (E5 := ensureLayer_append (districtsLine config) src
                    (pre ++ [oregonTrailsLine config; roadlessFill config;
                             roadlessLine config; pctLine config] ++ sym :: rest)).
    cbn [app] in E5.
    rewrite E5; clear E5;
      [|intros y Hy; apply in_app_or in Hy;
          destruct Hy as [Hy|[<-|[<-|[<-|[<-|Hy]]]]];
          [apply Fr; [tauto|cbn; tauto]|discriminate|discriminate|discriminate
          |discriminate|apply Fr; [tauto|cbn; tauto]]
       |apply Src; cbn; tauto].
    assert (E6 := ensureLayer_insert (districtsFill config)
                    "congressional-districts-line" src
                    (pre ++ [oregonTrailsLine config; roadlessFill config;
                             roadlessLine config; pctLine config] ++ sym :: rest)
                    (districtsLine config) []).
    cbn [app] in E6.
    rewrite E6; clear E6;
      [|intros y Hy; apply in_app_or in Hy; destruct Hy as [Hy|[<-|[]]];
          [|discriminate];
          apply in_app_or in Hy; destruct Hy as [Hy|[<-|[<-|[<-|[<-|Hy]]]]];
          [apply Fr; [tauto|cbn; tauto]|discriminate|discriminate|discriminate
          |discriminate|apply Fr; [tauto|cbn; tauto]]
       |apply Src; cbn; tauto|discriminate|reflexivity
       |intros y Hy;
          apply in_app_or in Hy; destruct Hy as [Hy|[<-|[<-|[<-|[<-|Hy]]]]];
          [apply (Fr y (or_introl Hy) (districtsLine config)); cbn; tauto
          |discriminate|discriminate|discriminate|discriminate
          |apply (Fr y (or_intror Hy) (districtsLine config)); cbn; tauto]].
    cbn [style_layers]. rewrite <- !app_assoc. reflexivity.
Qed.

End WithConfig.

End Layers.

(** * The set-up and the styling together *)

Lemma layerIds_has (s : MapStyle.Style) (id : string) :
  MapStyle.hasLayer s id -> id ∈ MapStyle.layerIds s.
Proof.
  intros [x H]. apply getLayer_In in H. destruct H as [Hin <-].
  unfold MapStyle.layerIds. apply elem_of_list_to_set, list_elem_of_In.
  apply in_map. exact Hin.
Qed.

Lemma repaintedWhere_both (w : World) (values : expr * expr * expr) :
  fillLayer ∈ layers w -> lineLayer ∈ layers w ->
  repaintedWhere w values = repainted w values.
Proof.
  intros F L. unfold repaintedWhere, repainted.
  rewrite !bool_decide_eq_true_2 by assumption. reflexivity.
Qed.

Section Composition.

Variable config : MapStyle.Config.

(** X17.  After the set-up the two listeners never skip a district layer:
    on a world whose layers are those of the style the set-up returned,
    the styling effect and the zoom listener both install all three
    values computed from the state and the zoom. *)
Theorem styling_after_setup_sets_all_three (s s' : MapStyle.Style) (w : World) :
  MapStyle.addSourcesAndLayers config s = MapStyle.Done s' ->
  layers w = MapStyle.layerIds s' ->
  let values := derivedPaint (selectedDistrictId w) (zoom w) in
  stylingEffect w = (repainted w values, Normal tt) /\
  handleZoomChange w = (repainted w values, Normal tt) /\
  districtPaint (repainted w values) =
  (Some (fst (fst values)), Some (snd (fst values)), Some (snd values)).
Proof.
  intros E Hl values.
  assert (F : fillLayer ∈ layers w).
  { rewrite Hl. apply layerIds_has.
    apply (addSourcesAndLayers_has config s s' E (MapStyle.districtsFill config)).
    cbn. tauto. }
  assert (L : lineLayer ∈ layers w).
  { rewrite Hl. apply layerIds_has.
    apply (addSourcesAndLayers_has config s s' E (MapStyle.districtsLine config)).
    cbn. tauto. }
  rewrite stylingEffect_any, handleZoomChange_any.
  rewrite (repaintedWhere_both w _ F L). fold values.
  split; [reflexivity|]. split; [reflexivity|].
  unfold districtPaint, repainted. cbn [paint].
  rewrite !lookup_insert. repeat case_decide; try congruence; reflexivity.
Qed.

(** X18.  On a style without district layers the set-up creates them with
    the paint the listeners reset to: whenever nothing is selected or the
    zoom is above 8, the three values of the styling code are the
    [fill-opacity], [line-opacity] and [line-width] the two layers were
    added with. *)
Theorem district_layers_are_created_at_the_reset_values
  (s s' : MapStyle.Style) (selected : jsval) (z : float) :
  MapStyle.addSourcesAndLayers config s = MapStyle.Done s' ->
  MapStyle.getLayer s fillLayer = None ->
  MapStyle.getLayer s lineLayer = None ->
  (z <=? 8)%float && truthy selected = false ->
  exists fill line,
    MapStyle.getLayer s' fillLayer = Some fill /\
    MapStyle.getLayer s' lineLayer = Some line /\
    let '(fillOpacity, lineOpacity, lineWidth) := derivedPaint selected z in
    MapStyle.paintOf fill "fill-opacity" = Some (MapStyle.exprJson fillOpacity) /\
    MapStyle.paintOf line "line-opacity" = Some (MapStyle.exprJson lineOpacity) /\
    MapStyle.paintOf line "line-width" = Some (MapStyle.exprJson lineWidth).
Proof.
  intros E Gf Gl Hz.
  pose proof (addSourcesAndLayers_has config s s' E) as Has.
  rewrite addSourcesAndLayers_done in E. injection E as E.
  set (s1 := {| MapStyle.style_sources :=
                  MapStyle.style_sources s ∪ MapStyle.defaultSources config;
                MapStyle.style_layers := MapStyle.style_layers s |}) in *.
  assert (New : forall id x,
            MapStyle.getLayer s id = None -> MapStyle.getLayer s' id = Some x ->
            In x (MapStyle.addedLayers config) /\ MapStyle.layer_id x = id).
  { intros id x Gn Gx. apply getLayer_In in Gx. destruct Gx as [Hin Hid].
    split; [|exact Hid]. rewrite <- E in Hin.
    destruct (proj1 (proj2 (proj2 (proj2 (addMapLayers_extends config s1)))) x Hin)
      as [Hold|Hnew]; [|exact Hnew].
    exfalso. rewrite getLayer_none in Gn. exact (Gn x Hold Hid). }
  destruct (proj1 (Has (MapStyle.districtsFill config) ltac:(cbn; tauto))) as [fill Hf].
  destruct (proj1 (Has (MapStyle.districtsLine config) ltac:(cbn; tauto))) as [line Hli].
  cbn [MapStyle.layer_id MapStyle.districtsFill MapStyle.districtsLine] in Hf, Hli.
  exists fill, line. split; [exact Hf|]. split; [exact Hli|].
  destruct (New _ _ Gf Hf) as [Inf Idf]. destruct (New _ _ Gl Hli) as [Inl Idl].
  unfold derivedPaint. rewrite Hz.
  cbn in Inf, Inl.
  destruct Inf as [<-|[<-|[<-|[<-|[<-|[<-|[]]]]]]]; try discriminate Idf.
  destruct Inl as [<-|[<-|[<-|[<-|[<-|[<-|[]]]]]]]; try discriminate Idl.
  repeat split; reflexivity.
Qed.

End Composition.

(** * Listeners *)

Section Listeners.

Import Wiring.

Implicit Types (r : registration) (t rs : list registration).

Lemma off_absent r t : ~ In r t -> off r t = t.
Proof.
  induction t as [|x t IH]; intros H; [reflexivity|]. cbn.
  destruct (decide (x = r)) as [->|Hne]; [exfalso; apply H; left; reflexivity|].
  rewrite IH; [reflexivity|]. intros Hin. apply H. right. exact Hin.
Qed.

Lemma off_first r t rest : ~ In r t -> off r (t ++ r :: rest) = t ++ rest.
Proof.
  induction t as [|x t IH]; intros H; cbn.
  - destruct (decide (r = r)); [reflexivity|congruence].
  - destruct (decide (x = r)) as [->|Hne]; [exfalso; apply H; left; reflexivity|].
    rewrite IH; [reflexivity|]. intros Hin. apply H. right. exact Hin.
Qed.

Lemma fold_off_exact rs t :
  (forall r, In r rs -> ~ In r t) ->
  fold_left (fun t r => off r t) rs (t ++ rs) = t.
Proof.
  induction rs as [|r rs IH]; intros H; cbn.
  - apply app_nil_r.
  - rewrite off_first by (apply H; left; reflexivity).
    apply IH. intros r' Hr'. apply H. right. exact Hr'.
Qed.

Lemma fold_off_absent rs t :
  (forall r, In r rs -> ~ In r t) ->
  fold_left (fun t r => off r t) rs t = t.
Proof.
  induction rs as [|r rs IH]; intros Hrs; cbn; [reflexivity|].
  rewrite off_absent by (apply Hrs; left; reflexivity).
  apply IH. intros r' Hr'. apply Hrs. right. exact Hr'.
Qed.

Lemma attachAll_fresh t :
  ~ In ("click"%string, None, GeneralClick) t -> attachAll t = t ++ attached.
Proof.
  intros H. unfold attachAll, attached. cbn [fold_left on].
  rewrite bool_decide_eq_false_2.
  - rewrite <- !app_assoc. reflexivity.
  - rewrite !elem_of_app, !list_elem_of_singleton, list_elem_of_In.
    intuition discriminate.
Qed.

Lemma attachZoom_fresh t :
  ~ In ("zoom"%string, None, ZoomChange) t ->
  attachZoom t = t ++ [("zoom"%string, None, ZoomChange)].
Proof.
  intros H. unfold attachZoom, on.
  rewrite bool_decide_eq_false_2; [reflexivity|].
  rewrite list_elem_of_In. exact H.
Qed.

(** X19.  The clean-up of each effect removes what the effect attached:
    on a map that has none of the registrations of the effect, attaching
    and then detaching leaves the listeners of the map as they were, in
    their order; and a clean-up that runs without the effect before it
    removes nothing. *)
Theorem cleanup_removes_what_was_attached (table : list registration) :
  ((forall r, In r attached -> ~ In r table) ->
   detachAll (attachAll table) = table /\ detachAll table = table) /\
  (~ In ("zoom"%string, None, ZoomChange) table ->
   detachZoom (attachZoom table) = table /\ detachZoom table = table).
Proof.
  split.
  - intros H. unfold detachAll. change detached with attached. split.
    + rewrite attachAll_fresh by (apply H; unfold attached; cbn; tauto).
      apply fold_off_exact, H.
    + apply fold_off_absent, H.
  - intros H. unfold detachZoom. split; [|apply off_absent, H].
    rewrite attachZoom_fresh by exact H.
    rewrite off_first by exact H. apply app_nil_r.
Qed.

End Listeners.

(** * Samples *)

Import SampleMap.

(** The outline between a district and the Pacific Crest Trail changes
    nothing. *)
Lemma resolver_ignores_the_outline :
  highestPriorityFeature [districtFour; roadlessOutline; pacificCrest] =
  highestPriorityFeature [districtFour; pacificCrest].
Proof.
  apply (resolver_ignores_unlisted [districtFour] [pacificCrest] roadlessOutline).
  intros (id & E & Hin). injection E as <-. cbn in Hin. intuition discriminate.
Defined.

(** District "4" is selected; a click on the district with a roadless
    area under the same point unselects. *)
Lemma click_on_district_over_roadless_area :
  let w' := fst (generalClickHandler (clickOn [districtFour; roadlessArea])
                   (world 5 (JStr (lit "4")))) in
  selectedDistrictId w' = JNull /\ popup w' = None /\
  snd (generalClickHandler (clickOn [districtFour; roadlessArea])
         (world 5 (JStr (lit "4")))) = Normal tt.
Proof.
  exact (click_over_area_or_trail_unselects
           (clickOn [districtFour; roadlessArea]) (world 5 (JStr (lit "4")))
           roadlessArea (or_intror (or_introl eq_refl)) (or_introl eq_refl)).
Defined.

(** The world after a click on district "4" from the mount. *)
Lemma selection_after_click_on_district_four :
  let w := fst (generalClickHandler (clickOn [districtFour]) (world 5 JNull)) in
  (selectedDistrictId w = JNull \/ truthy (selectedDistrictId w) = true) /\
  (truthy (selectedDistrictId w) = false <-> selectedDistrictId w = JNull).
Proof.
  apply (selection_is_null_or_truthy
           (fun _ : unit => Normal 0%float) (fun _ : unit => Normal 0%float) [] []).
  apply by_generalClickHandler, at_mount. reflexivity.
Defined.

(** A roadless area with a [NAME] and no identifier, of ten acres. *)
Lemma area_popup_of_mount_hood :
  popup (fst (onClick (fun _ : unit => Normal 40468.564224%float)
                ["NAME"; "Name"]%string ["UNIT_ID"]%string
                (layerClickOn [roadlessArea]) (world 9 JNull))) =
  Some (((-121.7)%float, 45.4%float),
        AreaPopup (lit "Mount Hood Additions") None (lit "10")).
Proof.
  destruct (area_popup_name_and_id (fun _ : unit => Normal 40468.564224%float)
              ["NAME"; "Name"]%string ["UNIT_ID"]%string
              (layerClickOn [roadlessArea]) (world 9 JNull) roadlessArea []
              eq_refl)
    as (name & uid & Hp & _ & Hname & Huid & _).
  rewrite Hp.
  rewrite (Hname [] "NAME"%string ["Name"%string] eq_refl).
  - rewrite Huid; [reflexivity|].
    intros k [<-|[]]. reflexivity.
  - intros k' [].
  - discriminate.
  - discriminate.
Defined.

(** A click on the Pacific Crest Trail opens a popup; a click on a trail
    whose name is a number throws. *)
Lemma trail_click_samples :
  snd (onTrailClick (fun _ : unit => Normal 1000%float)
         (layerClickOn [pacificCrest]) (world 9 JNull)) = Normal tt /\
  onTrailClick (fun _ : unit => Normal 1000%float)
    (layerClickOn [numberedTrail]) (world 9 JNull) =
  (world 9 JNull, Throw TypeError).
Proof.
  split.
  - apply (proj1 (proj2 (trail_click_outcome (fun _ : unit => Normal 1000%float)
                           (layerClickOn [pacificCrest]) (world 9 JNull)
                           pacificCrest [] eq_refl))).
    intros [H _]. discriminate H.
  - apply (proj1 (trail_click_outcome (fun _ : unit => Normal 1000%float)
                    (layerClickOn [numberedTrail]) (world 9 JNull)
                    numberedTrail [] eq_refl)).
    split; reflexivity.
Defined.

(** District "4" is selected.  A click on a roadless area leaves it
    selected when no popup is on the map, and unselects when one is. *)
Lemma area_click_over_a_shown_popup :
  selectedDistrictId
    (fst (onClick (fun _ : unit => Normal 40468.564224%float) [] []
            (layerClickOn [roadlessArea]) (world 5 (JStr (lit "4"))))) =
  JStr (lit "4") /\
  selectedDistrictId
    (fst (onClick (fun _ : unit => Normal 40468.564224%float) [] []
            (layerClickOn [roadlessArea]) (worldWithPopup 5 (JStr (lit "4"))))) =
  JNull.
Proof.
  split.
  - exact (proj1 (proj1 (proj2 (proj2
             (layer_clicks_never_select
                (fun _ : unit => Normal 40468.564224%float)
                (fun _ : unit => Normal 1%float) [] []
                (layerClickOn [roadlessArea]) (world 5 (JStr (lit "4"))))))
             eq_refl)).
  - exact (proj1 (proj1 (proj2 (proj2 (proj2
             (layer_clicks_never_select
                (fun _ : unit => Normal 40468.564224%float)
                (fun _ : unit => Normal 1%float) [] []
                (layerClickOn [roadlessArea])
                (worldWithPopup 5 (JStr (lit "4")))))))
             ltac:(discriminate) roadlessArea [] eq_refl)).
Defined.

(** The popup of district "4". *)
Lemma district_four_popup_fields :
  exists districtNumber name party padded totalAcres roadlessAcres,
    districtPopup (propsOf districtFour) =
    Normal (DistrictPopup districtNumber
              (lit "Rep. " ++ name ++ lit " (" ++ party ++ endash ++ lit "OR-"
                 ++ padded ++ lit ")")
              totalAcres roadlessAcres) /\
    districtNumber <> [] /\ totalAcres <> [] /\ roadlessAcres <> [] /\
    name <> [] /\ (2 <= List.length padded)%nat.
Proof.
  exact (district_popup_fields_nonempty (propsOf districtFour) eq_refl eq_refl).
Defined.

(** The layers of the base map after the set-up. *)
Lemma order_on_the_base_map :
  List.map MapStyle.layer_id (MapStyle.style_layers afterSetUp) =
  [ "land"; "water";
    "oregon-trails-line"; "roadless-fill"; "roadless-line"; "pct-line";
    "road-label"; "poi-label";
    "congressional-districts-fill"; "congressional-districts-line" ]%string.
Proof.
  unfold afterSetUp.
  rewrite (addMapLayers_order_on_fresh_style config streetsWithSources
             [land; waterFill] [roadLabel; poiLabel] eq_refl).
  - reflexivity.
  - intros y [<-|[<-|[]]]; discriminate.
  - split; [reflexivity|]. split; [discriminate|].
    intros y [<-|[<-|[]]]; discriminate.
  - intros l Hl. cbn in Hl.
    destruct Hl as [<-|[<-|[<-|[<-|[<-|[<-|[]]]]]]];
      (split; [reflexivity|eexists; reflexivity]).
Defined.

(** District "4" selected at zoom 5 on the base map after the set-up. *)
Lemma styling_on_the_base_map :
  districtPaint (fst (stylingEffect (worldOn afterSetUp 5 (JStr (lit "4"))))) =
  (Some (whenSelected (JStr (lit "4")) 0.4 0.1),
   Some (whenSelected (JStr (lit "4")) 1.0 0.8),
   Some (whenSelected (JStr (lit "4")) 2.5 1.5)).
Proof.
  destruct (styling_after_setup_sets_all_three config streets afterSetUp
              (worldOn afterSetUp 5 (JStr (lit "4")))
              (addSourcesAndLayers_done config streets) eq_refl)
    as (E & _ & P).
  rewrite E. cbn [fst]. rewrite P. reflexivity.
Defined.

(** The district layers of the base map after the set-up, and the values
    at zoom 9. *)
Lemma district_layers_on_the_base_map :
  exists fill line,
    MapStyle.getLayer afterSetUp fillLayer = Some fill /\
    MapStyle.getLayer afterSetUp lineLayer = Some line /\
    MapStyle.paintOf fill "fill-opacity" = Some (MapStyle.num 0.1) /\
    MapStyle.paintOf line "line-opacity" = Some (MapStyle.num 0.8) /\
    MapStyle.paintOf line "line-width" = Some (MapStyle.num 1.5).
Proof.
  exact (district_layers_are_created_at_the_reset_values config streets afterSetUp
           (JStr (lit "4")) 9 (addSourcesAndLayers_done config streets)
           eq_refl eq_refl eq_refl).
Defined.

(** A map with one listener of its own. *)
Lemma cleanup_on_a_map_with_a_listener :
  Wiring.detachAll (Wiring.attachAll [("click"%string, None, Wiring.Enter)]) =
  [("click"%string, None, Wiring.Enter)].
Proof.
  apply (proj1 (cleanup_removes_what_was_attached [("click"%string, None, Wiring.Enter)])).
  intros r Hr [<-|[]]. cbn in Hr. intuition discriminate.
Defined.
